(** * A shallow embedding of the core of the Obsidian vector-search plugin

    The plugin ([src/unnamed/part_000], class [VectorSearchPlugin] and the
    search modal) splits Markdown notes into chunks, stores one embedding per
    chunk in an in-memory [Map<string, VectorData>] persisted as
    [vectors.json], and ranks chunks against a query by cosine similarity.

    Modelling choices:
    - note contents are [list ascii] (one element per UTF-16 code unit of the
      source); paths, keys and titles are [string];
    - JS numbers used as offsets, sizes and chunk indices are [Z]; embedding
      components and similarity scores are real numbers [R]. The source
      computes scores in IEEE doubles, which round each operation, so no
      statement below relies on a fact of exact arithmetic that rounding
      breaks (such as a self-similarity of exactly [1], or scores bounded
      by [1]): they give the formula the source evaluates, or do not depend
      on the value a score takes, or (the symmetry of [cosineSimilarity])
      hold operation by operation in double arithmetic too, where each
      product commutes and the sums run in the same order;
    - the [Map] is a stdpp [gmap string VectorData] (keys are unique as in a
      JS [Map]; its iteration order is not modelled and no claim below
      depends on it);
    - the external collaborators (Obsidian's [normalizePath], the embedding
      service, [Date.now]) are fields of an explicit environment record;
    - the character-chunking [while] loop may run forever, so it is run with
      fuel and [None] stands for "never exits";
    - [src/unnamed/part_000] holds two versions of the plugin; the one
      modelled is the first (lines 1-917), which the specification's cited
      lines refer to. *)

From Stdlib Require Import Reals Lra ZArith List Ascii Sorted DecimalString DecimalZ.
From stdpp Require Import base gmap strings list.

Open Scope Z_scope.

(** ** JS string helpers *)

(** [String.prototype.slice(start, end)] on a sequence of code units:
    negative indices count from the end, both are clamped to the length. *)
Definition js_slice {A} (s : list A) (start stop : Z) : list A :=
  let len := Z.of_nat (length s) in
  let rel x := if x <? 0 then Z.max (len + x) 0 else Z.min x len in
  let a := rel start in
  let b := rel stop in
  firstn (Z.to_nat (b - a)) (skipn (Z.to_nat a) s).

Definition newline : ascii := "010"%char.

(** [s.split('\n')]: always at least one (possibly empty) piece. *)
Fixpoint split_nl (s : list ascii) : list (list ascii) :=
  match s with
  | [] => [[]]
  | c :: cs =>
      let r := split_nl cs in
      if ascii_dec c newline then [] :: r
      else match r with
           | l :: ls => (c :: l) :: ls
           | [] => [[c]]
           end
  end.

(** Characters removed by [String.prototype.trim] (those representable in
    one byte: tab, LF, VT, FF, CR, space, no-break space). *)
Definition is_ws (c : ascii) : bool :=
  let n := nat_of_ascii c in
  (Nat.eqb n 9 || Nat.eqb n 10 || Nat.eqb n 11 || Nat.eqb n 12 ||
   Nat.eqb n 13 || Nat.eqb n 32 || Nat.eqb n 160)%bool.

(** [s.trim().length === 0] *)
Definition is_blank (s : list ascii) : bool := forallb is_ws s.

Definition zlen {A} (s : list A) : Z := Z.of_nat (length s).

(** Template-literal rendering of an integral JS number. *)
Definition z_to_string (z : Z) : string := NilZero.string_of_int (Z.to_int z).

(** ** Data model *)

Record VectorData := mkVectorData {
  path : string;
  embedding : list R;
  title : string;
  chunkIndex : Z;
  startLine : Z;
  endLine : Z
}.

(** An element of the persisted JSON array: [chunkIndex] is [None] when
    the stored value is missing or not a finite number. *)
Record RawVectorData := mkRawVectorData {
  rpath : string;
  rembedding : list R;
  rtitle : string;
  rchunkIndex : option Z;
  rstartLine : Z;
  rendLine : Z
}.

Definition to_raw (v : VectorData) : RawVectorData :=
  mkRawVectorData (path v) (embedding v) (title v) (Some (chunkIndex v))
    (startLine v) (endLine v).

(** An element of a parsed JSON array: [null], or an object carrying the
    record's fields. (Elements of other shapes, such as numbers or objects
    without a string [path], are not modelled.) *)
Inductive JsonElement :=
  | JNull
  | JRecord (r : RawVectorData).

Record TextChunk := mkTextChunk {
  text : list ascii;
  startOffset : Z;
  endOffset : Z
}.

Inductive ChunkingStrategy := Character | Paragraph.

Record Settings := mkSettings {
  searchThreshold : R;
  maxResults : nat;
  chunkSize : Z;
  chunkOverlap : Z;
  chunkingStrategy : ChunkingStrategy;
  vectors : list JsonElement;     (* legacy in-settings store, see loadVectorStore *)
  lastIndexTime : option Z;
  lastIndexCount : nat
}.

(** ** [splitIntoChunks] *)

(** The first loop of the paragraph strategy, over the lines of the note:
    [offset] is the start of the current line, [pstart] is
    [paragraphStart]; returns the pushed [{start, end}] pairs and the final
    [paragraphStart]. *)
Fixpoint scan_lines (lines : list (list ascii)) (offset pstart : Z)
  : list (Z * Z) * Z :=
  match lines with
  | [] => ([], pstart)
  | line :: rest =>
      let lineEnd := offset + zlen line in
      if is_blank line then
        let '(ps, fin) := scan_lines rest (lineEnd + 1) (lineEnd + 1) in
        ((if pstart <? offset then (pstart, offset) :: ps else ps), fin)
      else scan_lines rest (lineEnd + 1) pstart
  end.

Definition paragraphs_of (content : list ascii) : list (Z * Z) :=
  let '(ps, pstart) := scan_lines (split_nl content) 0 0 in
  ps ++ (if pstart <? zlen content then [(pstart, zlen content)] else []).

Definition chunk_of (content : list ascii) (s e : Z) : TextChunk :=
  mkTextChunk (js_slice content s e) s e.

(** The second loop of the paragraph strategy; [-1] in [cStart] is the
    "no open chunk" sentinel of the source. *)
Fixpoint merge_paragraphs (content : list ascii) (chunkSize : Z)
    (ps : list (Z * Z)) (cStart cEnd cLen : Z) : list TextChunk :=
  match ps with
  | [] => if cStart =? -1 then [] else [chunk_of content cStart cEnd]
  | (s, e) :: rest =>
      let ptext := js_slice content s e in
      if is_blank ptext then merge_paragraphs content chunkSize rest cStart cEnd cLen
      else if cStart =? -1 then merge_paragraphs content chunkSize rest s e (zlen ptext)
      else
        let gap := s - cEnd in
        let nextLength := cLen + gap + zlen ptext in
        if (chunkSize <? nextLength) && (0 <? cLen) then
          chunk_of content cStart cEnd
            :: merge_paragraphs content chunkSize rest s e (zlen ptext)
        else merge_paragraphs content chunkSize rest cStart e nextLength
  end.

(** The character strategy's [while (i < content.length)] loop, run with
    [fuel] iterations at most; [None] when the fuel runs out. *)
Fixpoint char_loop (fuel : nat) (content : list ascii) (chunkSize chunkOverlap i : Z)
  : option (list TextChunk) :=
  match fuel with
  | O => None
  | S f =>
      if i <? zlen content then
        let e := Z.min (i + chunkSize) (zlen content) in
        match char_loop f content chunkSize chunkOverlap (i + (chunkSize - chunkOverlap)) with
        | Some r => Some (chunk_of content i e :: r)
        | None => None
        end
      else Some []
  end.

(** [splitIntoChunks]; [None] means the call never returns.  With a positive
    step the loop runs at most [length content + 1] times (proved below),
    so that much fuel decides it. *)
Definition splitIntoChunks (st : Settings) (content : list ascii)
  : option (list TextChunk) :=
  if chunkSize st =? 0 then Some [mkTextChunk content 0 (zlen content)]
  else match chunkingStrategy st with
       | Paragraph =>
           Some (merge_paragraphs content (chunkSize st) (paragraphs_of content) (-1) (-1) 0)
       | Character =>
           char_loop (S (length content)) content (chunkSize st) (chunkOverlap st) 0
       end.

(** ** [cosineSimilarity] *)

Open Scope R_scope.

(** [vec1.reduce((acc, val, i) => acc + val * vec2[i], 0)]; [vec2[i]] is
    only read for [i < vec1.length = vec2.length] (guarded by the caller), so
    the default of [nth] is never used. *)
Fixpoint dot_reduce (acc : R) (i : nat) (vec1 vec2 : list R) : R :=
  match vec1 with
  | [] => acc
  | x :: xs => dot_reduce (acc + x * nth i vec2 0) (S i) xs vec2
  end.

(** [vec.reduce((acc, val) => acc + val * val, 0)] *)
Definition sumsq_reduce (vec : list R) : R :=
  fold_left (fun acc v => acc + v * v) vec 0.

Definition cosineSimilarity (vec1 vec2 : list R) : R :=
  if (Nat.eqb (length vec1) 0 || Nat.eqb (length vec2) 0 ||
      negb (Nat.eqb (length vec1) (length vec2)))%bool
  then 0
  else
    let dotProduct := dot_reduce 0 0 vec1 vec2 in
    let mag1 := sqrt (sumsq_reduce vec1) in
    let mag2 := sqrt (sumsq_reduce vec2) in
    if Req_EM_T mag1 0 then 0
    else if Req_EM_T mag2 0 then 0
    else dotProduct / (mag1 * mag2).

(** The textbook quantities the specification is phrased in. *)
Definition dot (a b : list R) : R :=
  fold_right Rplus 0 (map (fun p => fst p * snd p) (combine a b)).

Definition norm (a : list R) : R :=
  sqrt (fold_right Rplus 0 (map (fun x => x * x) a)).

Close Scope R_scope.

(** ** Store, persistence and plugin state *)

Abbreviation VectorStore := (gmap string VectorData).

(** The map key [`${path}#${chunkIndex}`]. *)
Definition vkey (p : string) (ci : Z) : string :=
  (p +:+ "#" +:+ z_to_string ci)%string.

(** What [vectors.json] holds, as seen through [adapter.read] and
    [JSON.parse]. *)
Inductive Payload :=
  | Unparseable                        (* read or JSON.parse throws *)
  | ParsedNonArray                     (* parses, but not to an array *)
  | ParsedArray (vs : list JsonElement).

(** The host and the embedding service. *)
Record Env := mkEnv {
  normalizePath : string -> string;
  getEmbedding : list ascii -> list R;  (* [] on any failure, as in the source *)
  serviceOk : bool;                     (* outcome of checkRequirements *)
  now : Z                               (* Date.now() *)
}.

Record TFile := mkTFile {
  file_path : string;
  basename : string;
  file_content : list ascii
}.

Record PluginState := mkState {
  vectorStore : VectorStore;
  settings : Settings;
  vectorFile : option Payload;    (* vectors.json, None when absent *)
  dataFile : option Settings;     (* data.json, written by saveSettings *)
  requirementsOk : option bool;
  isIndexing : bool;
  cancelIndexing : bool
}.

Definition set_store (st : PluginState) (m : VectorStore) : PluginState :=
  mkState m (settings st) (vectorFile st) (dataFile st) (requirementsOk st)
    (isIndexing st) (cancelIndexing st).

Definition set_settings (st : PluginState) (s : Settings) : PluginState :=
  mkState (vectorStore st) s (vectorFile st) (dataFile st) (requirementsOk st)
    (isIndexing st) (cancelIndexing st).

Definition set_vectorFile (st : PluginState) (f : option Payload) : PluginState :=
  mkState (vectorStore st) (settings st) f (dataFile st) (requirementsOk st)
    (isIndexing st) (cancelIndexing st).

Definition set_requirementsOk (st : PluginState) (r : option bool) : PluginState :=
  mkState (vectorStore st) (settings st) (vectorFile st) (dataFile st) r
    (isIndexing st) (cancelIndexing st).

Definition set_flags (st : PluginState) (indexing cancel : bool) : PluginState :=
  mkState (vectorStore st) (settings st) (vectorFile st) (dataFile st)
    (requirementsOk st) indexing cancel.

Definition with_index_stats (s : Settings) (time : option Z) (count : nat) : Settings :=
  mkSettings (searchThreshold s) (maxResults s) (chunkSize s) (chunkOverlap s)
    (chunkingStrategy s) (vectors s) time count.

Definition with_vectors (s : Settings) (vs : list JsonElement) : Settings :=
  mkSettings (searchThreshold s) (maxResults s) (chunkSize s) (chunkOverlap s)
    (chunkingStrategy s) vs (lastIndexTime s) (lastIndexCount s).

(** [saveSettings] *)
Definition saveSettings (st : PluginState) : PluginState :=
  mkState (vectorStore st) (settings st) (vectorFile st) (Some (settings st))
    (requirementsOk st) (isIndexing st) (cancelIndexing st).

(** [saveVectorStore(vectors?)]: writes the given array, or the values of the
    in-memory map. *)
Definition saveVectorStore (st : PluginState) (vs : option (list JsonElement))
  : PluginState :=
  let payload := match vs with
                 | Some l => l
                 | None => map (fun kv => JRecord (to_raw kv.2)) (map_to_list (vectorStore st))
                 end in
  set_vectorFile st (Some (ParsedArray payload)).

(** [new Map(vectors.map((v, index) => [key, {...v, chunkIndex}]))]: later
    entries overwrite earlier ones with the same key. [None] when the
    callback throws: [v.chunkIndex] on a [null] element is a [TypeError]. *)
Fixpoint build_map_from (vs : list JsonElement) (index : nat) (m : VectorStore)
  : option VectorStore :=
  match vs with
  | [] => Some m
  | JNull :: _ => None
  | JRecord v :: rest =>
      let ci := match rchunkIndex v with Some z => z | None => Z.of_nat index end in
      let vd := mkVectorData (rpath v) (rembedding v) (rtitle v) ci
                  (rstartLine v) (rendLine v) in
      build_map_from rest (S index) (<[vkey (rpath v) ci := vd]> m)
  end.

Definition build_map (vs : list JsonElement) : option VectorStore := build_map_from vs 0 ∅.

Definition load_error_log : string := "[Vector Search] Failed to load vector store:".

(** The part of [loadVectorStore] before the [new Map(...)] statement: the
    array to be mapped, the state at that point and the lines written by
    [console.error]. *)
Definition load_source (st : PluginState) : list JsonElement * PluginState * list string :=
    match vectorFile st with
    | Some Unparseable => ([], st, [load_error_log])
    | Some ParsedNonArray => ([], st, [])
    | Some (ParsedArray parsed) => (parsed, st, [])
    | None =>
        match vectors (settings st) with
        | [] => ([], st, [])
        | legacy =>
            let st2 := saveVectorStore st (Some legacy) in
            let s0 := with_vectors (settings st2) [] in
            let s1 := if Nat.eqb (lastIndexCount s0) 0
                      then with_index_stats s0 (lastIndexTime s0) (length legacy)
                      else s0 in
            (legacy, saveSettings (set_settings st2 s1), [])
        end
    end.

(** [loadVectorStore]: the state and the lines written by [console.error]
    when the method settles. If the [new Map(...)] statement throws, which is
    outside the [try], the promise rejects: [this.vectorStore] keeps its
    previous value and the files written before stay written. *)
Definition loadVectorStore (st : PluginState) : PluginState * list string :=
  let '(vs, st1, logs) := load_source st in
  match build_map vs with
  | Some m => (set_store st1 m, logs)
  | None => (st1, logs)
  end.

(** Whether [loadVectorStore] settles by throwing (its promise rejects). *)
Definition loadVectorStore_throws (st : PluginState) : bool :=
  let '(vs, _, _) := load_source st in
  match build_map vs with
  | Some _ => false
  | None => true
  end.

(** [clearVectorStore] *)
Definition clearVectorStore (st : PluginState) : PluginState :=
  set_vectorFile (set_store st ∅) None.

(** [removeFileVectors]: iterating a JS [Map] while deleting the current
    entry visits every entry once, so exactly the entries whose value's path
    is the normalized path are dropped. *)
Definition removeFileVectors (env : Env) (filePath : string) (m : VectorStore)
  : VectorStore :=
  filter (fun kv : string * VectorData => (kv.2).(path) <> normalizePath env filePath) m.

(** [ensureRequirements(showNotice)] with the cached three-valued flag. *)
Definition ensureRequirements (env : Env) (showNotice : bool) (st : PluginState)
  : bool * PluginState :=
  match requirementsOk st with
  | Some true => (true, st)
  | Some false =>
      if showNotice then (serviceOk env, set_requirementsOk st (Some (serviceOk env)))
      else (false, st)
  | None => (serviceOk env, set_requirementsOk st (Some (serviceOk env)))
  end.

(** ** Indexing *)

(** The body of the per-chunk loop shared by [processFile] and
    [buildVectorIndex]: the record for chunk [i] of [n], or [None] when the
    embedding came back empty and the chunk is skipped. *)
Definition chunk_record (env : Env) (file : TFile) (content : list ascii)
    (n i : nat) (chunk : TextChunk) : option VectorData :=
  let sLine := zlen (split_nl (js_slice content 0 (startOffset chunk))) - 1 in
  let eLine := sLine + zlen (split_nl (text chunk)) in
  let emb := getEmbedding env (text chunk) in
  if Nat.eqb (length emb) 0 then None
  else Some (mkVectorData (normalizePath env (file_path file)) emb
               (basename file +:+ " (chunk " +:+ z_to_string (Z.of_nat (S i))
                  +:+ "/" +:+ z_to_string (Z.of_nat n) +:+ ")")%string
               (Z.of_nat i) sLine eLine).

(** [this.vectorStore.set(`${vectorData.path}#${i}`, vectorData)] *)
Definition store_record (vd : VectorData) (m : VectorStore) : VectorStore :=
  <[vkey (path vd) (chunkIndex vd) := vd]> m.

(** The chunk loop of [processFile], from chunk index [i]. *)
Fixpoint process_chunks (env : Env) (file : TFile) (content : list ascii)
    (n i : nat) (chunks : list TextChunk) (m : VectorStore) : VectorStore :=
  match chunks with
  | [] => m
  | c :: cs =>
      match chunk_record env file content n i c with
      | None => process_chunks env file content n (S i) cs m
      | Some vd => process_chunks env file content n (S i) cs (store_record vd m)
      end
  end.

(** [processFile(file)]; [None] when [splitIntoChunks] never returns. *)
Definition processFile (env : Env) (file : TFile) (st : PluginState)
  : option PluginState :=
  let '(isReady, st1) := ensureRequirements env false st in
  if negb isReady then Some st1
  else
    let content := file_content file in
    match splitIntoChunks (settings st1) content with
    | None => None
    | Some chunks =>
        let m0 := removeFileVectors env (file_path file) (vectorStore st1) in
        let m1 := process_chunks env file content (length chunks) 0 chunks m0 in
        let st2 := saveVectorStore (set_store st1 m1) None in
        let s := with_index_stats (settings st2) (Some (now env)) (size m1) in
        Some (saveSettings (set_settings st2 s))
  end.

(** The records [processFile] produces for a note, gathered in a fresh map. *)
Definition fresh_records (env : Env) (file : TFile) (chunks : list TextChunk)
  : VectorStore :=
  process_chunks env file (file_content file) (length chunks) 0 chunks ∅.

(** Cancellation: [cancel k] is the value of [this.cancelIndexing] read at the
    [k]-th check of the run (one check before each note, one before each
    chunk). *)
Fixpoint build_chunks (env : Env) (cancel : nat -> bool) (file : TFile)
    (content : list ascii) (n i : nat) (chunks : list TextChunk)
    (k : nat) (m : VectorStore) : bool * nat * VectorStore :=
  match chunks with
  | [] => (false, k, m)
  | c :: cs =>
      if cancel k then (true, S k, m)
      else
        match chunk_record env file content n i c with
        | None => build_chunks env cancel file content n (S i) cs (S k) m
        | Some vd => build_chunks env cancel file content n (S i) cs (S k) (store_record vd m)
        end
  end.

(** The loop over notes of [buildVectorIndex]: whether it was canceled, the
    next check number and the map built so far; [None] when a split never
    returns. *)
Fixpoint build_files (env : Env) (cancel : nat -> bool) (s : Settings)
    (files : list TFile) (k : nat) (m : VectorStore)
  : option (bool * nat * VectorStore) :=
  match files with
  | [] => Some (false, k, m)
  | f :: fs =>
      if cancel k then Some (true, S k, m)
      else
        match splitIntoChunks s (file_content f) with
        | None => None
        | Some chunks =>
            match build_chunks env cancel f (file_content f) (length chunks) 0 chunks (S k) m with
            | (true, k', m') => Some (true, k', m')
            | (false, k', m') => build_files env cancel s fs k' m'
            end
        end
  end.

(** [BuildThrew]: the reload after a cancel threw out of [try/finally]; the
    [finally] block still resets the flags. *)
Inductive BuildOutcome := BuildNotReady | BuildBusy | BuildCanceled | BuildThrew | BuildDone.

(** [buildVectorIndex()] over the vault's Markdown [files]. *)
Definition buildVectorIndex (env : Env) (cancel : nat -> bool) (files : list TFile)
    (st : PluginState) : option (BuildOutcome * PluginState) :=
  let '(isReady, st1) := ensureRequirements env true st in
  if negb isReady then Some (BuildNotReady, st1)
  else if isIndexing st1 then Some (BuildBusy, st1)
  else
    let st2 := set_store (set_flags st1 true false) ∅ in
    match build_files env cancel (settings st2) files 0 ∅ with
    | None => None
    | Some (true, _, m) =>
        let st3 := fst (loadVectorStore (set_store st2 m)) in
        if loadVectorStore_throws (set_store st2 m)
        then Some (BuildThrew, set_flags st3 false true)
        else Some (BuildCanceled, set_flags st3 false true)
    | Some (false, _, m) =>
        let st3 := saveVectorStore (set_store st2 m) None in
        let s := with_index_stats (settings st3) (Some (now env)) (size m) in
        let st4 := saveSettings (set_settings st3 s) in
        Some (BuildDone, set_flags st4 false (cancelIndexing st4))
    end.

(** ** Search *)

Open Scope R_scope.

Abbreviation SearchResult := (VectorData * R)%type.

(** [results.sort((a, b) => b.similarity - a.similarity)]: [Array.prototype.sort]
    is stable, and for this consistent comparator every stable sort returns
    the same array as this insertion sort. [x], which came first, goes
    before the first [y] with [compare(x, y) <= 0]. *)
Fixpoint insert_by_score (x : SearchResult) (l : list SearchResult) : list SearchResult :=
  match l with
  | [] => [x]
  | y :: ys =>
      if Rle_dec (y.2 - x.2) 0 then x :: y :: ys else y :: insert_by_score x ys
  end.

Fixpoint sort_by_score (l : list SearchResult) : list SearchResult :=
  match l with
  | [] => []
  | x :: xs => insert_by_score x (sort_by_score xs)
  end.

(** The scoring loop: the records whose similarity reaches the threshold. *)
Definition score_records (queryEmbedding : list R) (threshold : R)
    (records : list VectorData) : list SearchResult :=
  flat_map (fun vd =>
              let similarity := cosineSimilarity queryEmbedding (embedding vd) in
              if Rle_dec threshold similarity then [(vd, similarity)] else [])
    records.

Inductive SearchOutcome :=
  | SearchMessage (msg : string)
  | SearchResults (results : list SearchResult).

(** [SearchModal.performSearch(query)]: what is displayed, and the state
    (the requirement cache may be updated). *)
Definition performSearch (env : Env) (st : PluginState) (query : list ascii)
  : SearchOutcome * PluginState :=
  if Nat.ltb (length query) 3 then
    (SearchMessage "Type at least 3 characters to search.", st)
  else if Nat.eqb (size (vectorStore st)) 0 then
    (SearchMessage "Vector index is empty. Please rebuild the index first.", st)
  else
    let '(isReady, st1) := ensureRequirements env true st in
    if negb isReady then
      (SearchMessage "Ollama is unavailable. Check the plugin settings and try again.", st1)
    else
      let queryEmbedding := getEmbedding env query in
      if Nat.eqb (length queryEmbedding) 0 then
        (SearchMessage "Failed to generate an embedding for the query.", st1)
      else
        let results := score_records queryEmbedding (searchThreshold (settings st1))
                         (map snd (map_to_list (vectorStore st1))) in
        (SearchResults (firstn (maxResults (settings st1)) (sort_by_score results)), st1).

Close Scope R_scope.

(** ** Start-up, vault events and settings actions *)

(** [DEFAULT_SETTINGS], on the modelled fields. *)
Definition DEFAULT_SETTINGS : Settings :=
  mkSettings (5 / 10)%R 10 500 100 Paragraph [] None 0.

(** [loadSettings]: [Object.assign({}, DEFAULT_SETTINGS, await this.loadData())]
    then [loadVectorStore]. [loadData] gives [null] when [data.json] is
    absent; [data.json] is written whole by [saveSettings], so a saved
    object overrides every default. *)
Definition loadSettings (st : PluginState) : PluginState * list string :=
  let s := match dataFile st with Some s => s | None => DEFAULT_SETTINGS end in
  loadVectorStore (set_settings st s).

(** A new plugin instance over the same plugin folder ([onload]): an empty
    store, no cached requirement check, not indexing; then [loadSettings]. *)
Definition restart (st : PluginState) : PluginState * list string :=
  loadSettings (mkState ∅ DEFAULT_SETTINGS (vectorFile st) (dataFile st) None false false).

(** The [delete] handler registered in [onload]; [isMarkdown] is
    [file instanceof TFile && file.extension === 'md']. *)
Definition onDelete (env : Env) (filePath : string) (isMarkdown : bool) (st : PluginState)
  : PluginState :=
  if negb isMarkdown then st
  else
    let st1 := saveVectorStore (set_store st (removeFileVectors env filePath (vectorStore st))) None in
    let s := with_index_stats (settings st1) (Some (now env)) (size (vectorStore st1)) in
    saveSettings (set_settings st1 s).

(** The [rename] handler registered in [onload], up to its return: the
    records of the old path are dropped; calling the debouncer only
    schedules [processFile(file)] (an Obsidian [Debouncer] returns itself,
    not a promise), so the handler returns before the note is processed and
    nothing has been saved. *)
Definition onRename (env : Env) (oldPath : string) (isMarkdown : bool) (st : PluginState)
  : PluginState :=
  if negb isMarkdown then st
  else set_store st (removeFileVectors env oldPath (vectorStore st)).

(** [markRequirementsStale] *)
Definition markRequirementsStale (st : PluginState) : PluginState :=
  set_requirementsOk st None.

(** The [onChange] of the "Ollama URL" and "Model name" fields. The new
    value is not a field of the modelled settings: it acts through the
    environment ([serviceOk], [getEmbedding]). *)
Definition onServerSettingChange (st : PluginState) : PluginState :=
  saveSettings (markRequirementsStale st).

(** The "Clear index" button of the settings tab. *)
Definition onClearIndex (st : PluginState) : PluginState :=
  let st1 := clearVectorStore st in
  saveSettings (set_settings st1 (with_index_stats (settings st1) None 0)).

(** ** Notions used by the statements *)

(** A chunk lies within the text and carries the text between its offsets. *)
Definition chunk_in_bounds (content : list ascii) (c : TextChunk) : Prop :=
  0 <= startOffset c /\ startOffset c < endOffset c /\ endOffset c <= zlen content /\
  text c = js_slice content (startOffset c) (endOffset c).

(** The first chunk, then every later chunk without its first [overlap]
    characters. *)
Definition reconstruct (overlap : Z) (chunks : list TextChunk) : list ascii :=
  match chunks with
  | [] => []
  | c :: cs => text c ++ concat (map (fun c' => skipn (Z.to_nat overlap) (text c')) cs)
  end.

(** [lines.join('\n')], the inverse of [split_nl]. *)
Fixpoint join_nl (ls : list (list ascii)) : list ascii :=
  match ls with
  | [] => []
  | [l] => l
  | l :: rest => l ++ newline :: join_nl rest
  end.

(** Whether position [k] of the text joined from [lines] lies on a blank
    line; the newline that ends a line belongs to that line. *)
Fixpoint blank_line_at (lines : list (list ascii)) (k : Z) : bool :=
  match lines with
  | [] => false
  | l :: rest => if k <=? zlen l then is_blank l else blank_line_at rest (k - zlen l - 1)
  end.

(** A boundary [b] falls strictly inside a paragraph (a maximal run of
    non-blank lines) when the characters on both sides of it, [b - 1] and
    [b], lie on non-blank lines. *)
Definition inside_paragraph (content : list ascii) (b : Z) : Prop :=
  0 < b < zlen content /\
  blank_line_at (split_nl content) (b - 1) = false /\
  blank_line_at (split_nl content) b = false.

(** Paragraph ranges that are non-empty and within the text. *)
Definition well_placed (content : list ascii) (ps : list (Z * Z)) : Prop :=
  forall p, In p ps -> 0 <= p.1 /\ p.1 < p.2 /\ p.2 <= zlen content.

(** The entries whose value has the normalized form of [filePath] as path,
    the entries [removeFileVectors] drops. *)
Definition records_for (env : Env) (filePath : string) (m : VectorStore) : VectorStore :=
  filter (fun kv : string * VectorData => (kv.2).(path) = normalizePath env filePath) m.

(** The number of cancellation checks of a complete run over [files] (one
    per note and one per chunk), when every split returns. *)
Fixpoint run_checks (s : Settings) (files : list TFile) : option nat :=
  match files with
  | [] => Some 0%nat
  | f :: fs =>
      match splitIntoChunks s (file_content f), run_checks s fs with
      | Some chunks, Some n => Some (S (length chunks + n))
      | _, _ => None
      end
  end.

(** Every entry's key is [`${value.path}#${value.chunkIndex}`]. *)
Definition keys_consistent (m : VectorStore) : Prop :=
  forall k v, m !! k = Some v -> k = vkey (path v) (chunkIndex v).

(** [vectors.json] holds the records of the store and [data.json] the
    settings. *)
Definition persisted (st : PluginState) : Prop :=
  vectorFile st = Some (ParsedArray (map (fun kv => JRecord (to_raw kv.2)) (map_to_list (vectorStore st)))) /\
  dataFile st = Some (settings st).

(** Search results with score [c]. *)
Definition same_score (c : R) (r : SearchResult) : bool :=
  if Req_EM_T r.2 c then true else false.

(** The states the plugin reaches from an empty store through loads,
    incremental re-indexing, rebuilds, removals and clearing; any other step
    (settings edits, searches, saves, outside edits of [vectors.json]) may
    change everything but the store. *)
Inductive reachable : PluginState -> Prop :=
  | reach_empty st : vectorStore st = ∅ -> reachable st
  | reach_load st : reachable st -> reachable (fst (loadVectorStore st))
  | reach_process env file st st' :
      reachable st -> processFile env file st = Some st' -> reachable st'
  | reach_build env cancel files st o st' :
      reachable st -> buildVectorIndex env cancel files st = Some (o, st') -> reachable st'
  | reach_remove env filePath st :
      reachable st -> reachable (set_store st (removeFileVectors env filePath (vectorStore st)))
  | reach_clear st : reachable st -> reachable (clearVectorStore st)
  | reach_other st st' : reachable st -> vectorStore st' = vectorStore st -> reachable st'.

(** ** Sample inputs used by the witnesses and counterexamples *)

Definition sample_settings (strategy : ChunkingStrategy) (cs ov : Z) : Settings :=
  mkSettings 0%R 10 cs ov strategy [] None 0.

Definition chars (s : string) : list ascii := String.list_ascii_of_string s.

(** Character-mode scenario of the specification: 22 characters. *)
Definition text22 : list ascii := chars "abcdefghijklmnopqrstuv".

(** Two one-character paragraphs separated by a blank line. *)
Definition two_paragraphs : list ascii :=
  ["a"; newline; newline; "b"]%char.

(** An environment whose [normalizePath] leaves paths as they are and whose
    service is reachable. *)
Definition sample_env (emb : list ascii -> list R) : Env :=
  mkEnv (fun p => p) emb true 0.

Definition sample_raw (p : string) (i : Z) : JsonElement :=
  JRecord (mkRawVectorData p [1%R] p (Some i) 0 1).

(** A state whose store and [vectors.json] hold the same records. *)
Definition sample_state (s : Settings) (m : VectorStore) : PluginState :=
  mkState m s (Some (ParsedArray (map (fun kv => JRecord (to_raw kv.2)) (map_to_list m))))
    (Some s) (Some true) false false.

(** Five records of ["note.md"] and one of ["other.md"]. *)
Definition five_chunk_store : VectorStore :=
  match build_map (map (sample_raw "note.md") [0; 1; 2; 3; 4] ++ [sample_raw "other.md" 0]) with
  | Some m => m
  | None => ∅
  end.

(** The state at start-up: an empty store, and [vectors.json] holding the
    records of [five_chunk_store]. *)
Definition startup_state : PluginState :=
  mkState ∅ (sample_settings Paragraph 1 0)
    (Some (ParsedArray (map (sample_raw "note.md") [0; 1; 2; 3; 4] ++ [sample_raw "other.md" 0])))
    None None false false.

(** ["first\n\nsecond\n\nthird"]: three paragraphs. *)
Definition three_paragraphs : list ascii :=
  chars "first" ++ [newline; newline] ++ chars "second" ++ [newline; newline] ++ chars "third".

Definition note_file : TFile := mkTFile "note.md" "note" three_paragraphs.

Definition reindexed (env : Env) (st : PluginState) : PluginState :=
  match processFile env note_file st with Some st' => st' | None => st end.

Definition sample_char_chunks : list TextChunk :=
  match splitIntoChunks (sample_settings Character 10 4) text22 with
  | Some chunks => chunks
  | None => []
  end.

Definition legacy_state : PluginState :=
  mkState ∅ (with_vectors (sample_settings Paragraph 1 0) [sample_raw "note.md" 0])
    None None None false false.

(** A state whose [vectors.json] holds the array [[null]]. *)
Definition null_file_state : PluginState :=
  mkState ∅ (sample_settings Paragraph 1 0) (Some (ParsedArray [JNull])) None None false false.

(** ["note.md"] once all its text was deleted. *)
Definition emptied_note : TFile := mkTFile "note.md" "note" [].

Definition processed (env : Env) (file : TFile) (st : PluginState) : PluginState :=
  match processFile env file st with Some st' => st' | None => st end.

(** A rebuild over [files] that nobody cancels. *)
Definition rebuilt (env : Env) (files : list TFile) (st : PluginState) : PluginState :=
  match buildVectorIndex env (fun _ => false) files st with Some (_, st') => st' | None => st end.

(** The record of chunk [0] of ["note.md"] after it is re-indexed. *)
Definition first_record : VectorData :=
  match vectorStore (reindexed (sample_env (fun _ => [1%R]))
                       (sample_state (sample_settings Paragraph 1 0) five_chunk_store))
          !! vkey "note.md" 0 with
  | Some v => v
  | None => mkVectorData "" [] "" 0 0 0
  end.

(** * Properties *)

(** ** Cosine similarity *)

Section Cosine.
Open Scope R_scope.

Lemma skipn_cons_nth (v : list R) (i : nat) (y : R) (ys : list R) :
  skipn i v = y :: ys -> nth i v 0 = y /\ skipn (S i) v = ys.
Proof.
  revert v; induction i as [|i IH]; intros [|z v] H; simpl in *; try discriminate.
  - injection H as -> ->. auto.
  - apply IH. exact H.
Qed.

Lemma skipn_nil_nth (v : list R) (i : nat) :
  skipn i v = [] -> nth i v 0 = 0 /\ skipn (S i) v = [].
Proof.
  revert v; induction i as [|i IH]; intros [|z v] H; simpl in *; try discriminate; auto.
Qed.

Lemma dot_reduce_spec (v1 v2 : list R) : forall acc i,
  dot_reduce acc i v1 v2 = acc + dot v1 (skipn i v2).
Proof.
  induction v1 as [|x xs IH]; intros acc i; simpl.
  - unfold dot. simpl. ring.
  - rewrite IH. unfold dot.
    destruct (skipn i v2) as [|y ys] eqn:E.
    + destruct (skipn_nil_nth v2 i E) as [-> ->]. rewrite combine_nil. simpl. ring.
    + destruct (skipn_cons_nth v2 i y ys E) as [-> ->]. simpl. ring.
Qed.

Lemma sumsq_fold (v : list R) : forall acc,
  fold_left (fun acc x => acc + x * x) v acc = acc + fold_right Rplus 0 (map (fun x => x * x) v).
Proof.
  induction v as [|x xs IH]; intros acc; simpl.
  - ring.
  - rewrite IH. ring.
Qed.

Lemma sqrt_sumsq_norm (v : list R) : sqrt (sumsq_reduce v) = norm v.
Proof. unfold sumsq_reduce, norm. rewrite sumsq_fold. f_equal. ring. Qed.

Lemma cosineSimilarity_unfold (a b : list R) :
  cosineSimilarity a b =
  if (Nat.eqb (length a) 0 || Nat.eqb (length b) 0 ||
      negb (Nat.eqb (length a) (length b)))%bool
  then 0
  else if Req_EM_T (norm a) 0 then 0
  else if Req_EM_T (norm b) 0 then 0
  else dot a b / (norm a * norm b).
Proof.
  unfold cosineSimilarity. rewrite !sqrt_sumsq_norm, dot_reduce_spec.
  simpl skipn. rewrite Rplus_0_l. reflexivity.
Qed.

(** C4: [cosineSimilarity] is [0] on an empty vector, on vectors of
    different lengths and on a vector of zero magnitude, and
    [dot(a,b) / (|a| * |b|)] otherwise; it is a total function (it never
    throws). *)
Theorem cosineSimilarity_spec (a b : list R) :
  ((a = [] \/ b = [] \/ length a <> length b \/ norm a = 0 \/ norm b = 0) ->
   cosineSimilarity a b = 0) /\
  (a <> [] -> b <> [] -> length a = length b -> norm a <> 0 -> norm b <> 0 ->
   cosineSimilarity a b = dot a b / (norm a * norm b)).
Proof.
  rewrite cosineSimilarity_unfold. split.
  - intros H.
    destruct (Nat.eqb (length a) 0) eqn:Ea; [reflexivity|].
    destruct (Nat.eqb (length b) 0) eqn:Eb; [reflexivity|].
    destruct (Nat.eqb (length a) (length b)) eqn:Eab; [|reflexivity]. simpl.
    apply Nat.eqb_neq in Ea. apply Nat.eqb_neq in Eb. apply Nat.eqb_eq in Eab.
    destruct (Req_EM_T (norm a) 0); [reflexivity|].
    destruct (Req_EM_T (norm b) 0); [reflexivity|].
    exfalso. destruct H as [->|[->|[H|[H|H]]]]; simpl in *; auto.
  - intros Ha Hb Hab Hna Hnb.
    assert (Ea : Nat.eqb (length a) 0 = false)
      by (apply Nat.eqb_neq; intros H; apply Ha, length_zero_iff_nil, H).
    assert (Eb : Nat.eqb (length b) 0 = false)
      by (apply Nat.eqb_neq; intros H; apply Hb, length_zero_iff_nil, H).
    rewrite Ea, Eb, Hab, Nat.eqb_refl. simpl.
    destruct (Req_EM_T (norm a) 0); [contradiction|].
    destruct (Req_EM_T (norm b) 0); [contradiction|].
    reflexivity.
Qed.

End Cosine.

(** ** Requirement gate *)

Lemma ensureRequirements_state (env : Env) (b : bool) (st st' : PluginState) (r : bool) :
  ensureRequirements env b st = (r, st') ->
  st' = st \/ st' = set_requirementsOk st (Some (serviceOk env)).
Proof.
  unfold ensureRequirements.
  destruct (requirementsOk st) as [[|]|]; [|destruct b|];
    intros H; injection H as <- <-; auto.
Qed.

(** ** Search results *)

Section Search.
Open Scope R_scope.

Definition score_ge (x y : SearchResult) : Prop := y.2 <= x.2.

Lemma insert_by_score_perm (x : SearchResult) (l : list SearchResult) :
  Permutation (insert_by_score x l) (x :: l).
Proof.
  induction l as [|y ys IH]; simpl; [reflexivity|].
  destruct (Rle_dec (y.2 - x.2) 0); [reflexivity|].
  rewrite IH. apply perm_swap.
Qed.

Lemma insert_by_score_hd (x y : SearchResult) (l : list SearchResult) :
  HdRel score_ge y l -> score_ge y x -> HdRel score_ge y (insert_by_score x l).
Proof.
  intros Hl Hyx. destruct l as [|z zs]; simpl.
  - constructor. exact Hyx.
  - destruct (Rle_dec (z.2 - x.2) 0); constructor; [exact Hyx|].
    inversion Hl; assumption.
Qed.

Lemma insert_by_score_sorted (x : SearchResult) (l : list SearchResult) :
  Sorted score_ge l -> Sorted score_ge (insert_by_score x l).
Proof.
  induction 1 as [|y ys Hs IH Hhd]; simpl.
  - repeat constructor.
  - destruct (Rle_dec (y.2 - x.2) 0) as [Hle|Hgt].
    + constructor; [constructor; assumption|]. constructor. unfold score_ge. lra.
    + constructor; [exact IH|]. apply insert_by_score_hd; [exact Hhd|].
      unfold score_ge. lra.
Qed.

Lemma sort_by_score_sorted (l : list SearchResult) : Sorted score_ge (sort_by_score l).
Proof.
  induction l as [|x xs IH]; simpl; [constructor|].
  apply insert_by_score_sorted, IH.
Qed.

Lemma sort_by_score_perm (l : list SearchResult) : Permutation (sort_by_score l) l.
Proof.
  induction l as [|x xs IH]; simpl; [reflexivity|].
  rewrite insert_by_score_perm, IH. reflexivity.
Qed.

Lemma firstn_sorted {A} (Rel : A -> A -> Prop) (n : nat) (l : list A) :
  Sorted Rel l -> Sorted Rel (firstn n l).
Proof.
  intros Hs. revert n. induction Hs as [|y ys Hs IH Hhd]; intros [|n]; simpl;
    try constructor.
  - apply IH.
  - destruct ys as [|z zs]; destruct n; simpl; constructor.
    inversion Hhd; assumption.
Qed.

Lemma in_firstn {A} (x : A) (n : nat) (l : list A) : In x (firstn n l) -> In x l.
Proof.
  intros H. rewrite <- (firstn_skipn n l). apply in_or_app. left. exact H.
Qed.

Lemma score_records_in (q : list R) (t : R) (records : list VectorData) (r : SearchResult) :
  In r (score_records q t records) ->
  t <= r.2 /\ r.2 = cosineSimilarity q (embedding r.1) /\ In r.1 records.
Proof.
  unfold score_records. rewrite in_flat_map. intros [vd [Hin Hr]].
  destruct (Rle_dec t (cosineSimilarity q (embedding vd))) as [Hle|]; [|contradiction].
  destruct Hr as [<-|[]]. simpl. auto.
Qed.

(** C5: a displayed result list has every score at least the threshold
    (each score being the cosine similarity of the query embedding with a
    stored record), is sorted by descending score, and has at most
    [maxResults] entries. It is cut after sorting: it is the first
    [maxResults] entries of the list of all stored records at or above the
    threshold, sorted by descending score. *)
Theorem performSearch_results (env : Env) (st : PluginState) (query : list ascii) :
  match fst (performSearch env st query) with
  | SearchResults rs =>
      (forall r, In r rs ->
         searchThreshold (settings st) <= r.2 /\
         r.2 = cosineSimilarity (getEmbedding env query) (embedding r.1) /\
         exists k, vectorStore st !! k = Some r.1) /\
      Sorted (fun x y => y.2 <= x.2) rs /\
      (length rs <= maxResults (settings st))%nat /\
      (exists full,
         Permutation full (score_records (getEmbedding env query) (searchThreshold (settings st))
                             (map snd (map_to_list (vectorStore st)))) /\
         Sorted (fun x y => y.2 <= x.2) full /\
         rs = firstn (maxResults (settings st)) full)
  | SearchMessage _ => True
  end.
Proof.
  unfold performSearch.
  destruct (Nat.ltb (length query) 3); [exact I|].
  destruct (Nat.eqb (size (vectorStore st)) 0); [exact I|].
  destruct (ensureRequirements env true st) as [isReady st1] eqn:Er.
  assert (Hst : vectorStore st1 = vectorStore st /\ settings st1 = settings st)
    by (destruct (ensureRequirements_state _ _ _ _ _ Er) as [->| ->]; auto).
  destruct Hst as [Hm Hs].
  destruct (negb isReady); [exact I|].
  destruct (Nat.eqb (length (getEmbedding env query)) 0); [exact I|].
  simpl. rewrite Hm, Hs. split; [|split].
  - intros r Hr. apply in_firstn in Hr.
    apply (Permutation_in _ (sort_by_score_perm _)) in Hr.
    apply score_records_in in Hr as (Ht & Hsim & Hin).
    split; [exact Ht|]. split; [exact Hsim|].
    apply in_map_iff in Hin as [[k v] [Hv Hkv]]. simpl in Hv. subst v.
    exists k. apply elem_of_map_to_list. apply list_elem_of_In. exact Hkv.
  - apply firstn_sorted, sort_by_score_sorted.
  - split; [apply firstn_le_length|].
    eexists. split; [apply sort_by_score_perm|].
    split; [apply sort_by_score_sorted|reflexivity].
Qed.

End Search.

(** ** Termination of the character strategy *)

Lemma char_loop_runs (content : list ascii) (cs ov : Z) :
  0 < cs - ov ->
  forall n i, (Z.to_nat (zlen content - i) <= n)%nat ->
  exists r, char_loop (S n) content cs ov i = Some r.
Proof.
  intros Hstep n. induction n as [|n IH]; intros i Hn; simpl.
  - destruct (i <? zlen content) eqn:Hi; [|eauto].
    apply Z.ltb_lt in Hi. lia.
  - destruct (i <? zlen content) eqn:Hi; [|eauto].
    apply Z.ltb_lt in Hi.
    destruct (IH (i + (cs - ov))) as [r Hr]; [lia|].
    simpl in Hr. rewrite Hr. eauto.
Qed.

Lemma char_loop_stuck (content : list ascii) (cs ov : Z) :
  cs - ov <= 0 ->
  forall fuel i, i < zlen content -> char_loop fuel content cs ov i = None.
Proof.
  intros Hstep fuel. induction fuel as [|f IH]; intros i Hi; simpl; [reflexivity|].
  destruct (i <? zlen content) eqn:E; [|apply Z.ltb_ge in E; lia].
  rewrite (IH (i + (cs - ov))); [reflexivity|lia].
Qed.

(** C3 (as the code behaves): in character mode with [chunkSize > 0],
    [splitIntoChunks] returns when the step [chunkSize - chunkOverlap] is
    positive or the text is empty; with a non-positive step on a non-empty
    text there is no fallback and the loop never exits, whatever number of
    iterations is allowed. *)
Theorem char_split_termination (st : Settings) (content : list ascii) :
  chunkingStrategy st = Character -> 0 < chunkSize st ->
  ((0 < chunkSize st - chunkOverlap st \/ content = []) ->
     exists chunks, splitIntoChunks st content = Some chunks) /\
  (chunkSize st - chunkOverlap st <= 0 -> content <> [] ->
     splitIntoChunks st content = None /\
     forall fuel, char_loop fuel content (chunkSize st) (chunkOverlap st) 0 = None).
Proof.
  intros Hstrat Hcs. unfold splitIntoChunks. rewrite Hstrat.
  destruct (chunkSize st =? 0) eqn:E0; [apply Z.eqb_eq in E0; lia|].
  split.
  - intros [Hstep| ->].
    + apply char_loop_runs; [exact Hstep|]. unfold zlen. lia.
    + simpl. eauto.
  - intros Hstep Hne.
    assert (Hlen : 0 < zlen content)
      by (destruct content; [congruence|unfold zlen; simpl; lia]).
    split; [|intros fuel]; apply char_loop_stuck; assumption.
Qed.

Lemma char_split_termination_witness :
  exists chunks, splitIntoChunks (sample_settings Character 10 4) text22 = Some chunks.
Proof.
  apply (char_split_termination (sample_settings Character 10 4) text22);
    [reflexivity | reflexivity | left; reflexivity].
Defined.

(** C3 fails at [chunkSize = 100], [chunkOverlap = 100] on the text ["a"]:
    the split never returns, while advancing by the full chunk size would
    have returned one chunk. *)
Lemma char_split_no_fallback :
  splitIntoChunks (sample_settings Character 100 100) ["a"%char] = None /\
  (forall fuel, char_loop fuel ["a"%char] 100 100 0 = None) /\
  char_loop 2 ["a"%char] 100 0 0 = Some [chunk_of ["a"%char] 0 1].
Proof.
  split; [reflexivity|]. split; [|reflexivity].
  intros fuel. apply char_loop_stuck; [lia|reflexivity].
Qed.

(** ** Slices *)

Section Slices.
Context {A : Type}.

Lemma zlen_nonneg (s : list A) : 0 <= zlen s.
Proof. unfold zlen. lia. Qed.

Lemma firstn_plus (n m : nat) (l : list A) :
  firstn (n + m) l = firstn n l ++ firstn m (skipn n l).
Proof.
  revert l; induction n as [|n IH]; intros [|x l]; simpl; auto.
  - destruct m; reflexivity.
  - f_equal. apply IH.
Qed.

Lemma js_slice_in (s : list A) (a b : Z) :
  0 <= a -> a <= b -> b <= zlen s ->
  js_slice s a b = firstn (Z.to_nat (b - a)) (skipn (Z.to_nat a) s).
Proof.
  intros Ha Hab Hb. unfold js_slice. fold (zlen s).
  destruct (a <? 0) eqn:E1; [apply Z.ltb_lt in E1; lia|].
  destruct (b <? 0) eqn:E2; [apply Z.ltb_lt in E2; lia|].
  rewrite (Z.min_l a), (Z.min_l b) by lia. reflexivity.
Qed.

Lemma zlen_js_slice (s : list A) (a b : Z) :
  0 <= a -> a <= b -> b <= zlen s -> zlen (js_slice s a b) = b - a.
Proof.
  intros Ha Hab Hb. rewrite js_slice_in by assumption.
  unfold zlen in *. rewrite length_firstn, length_skipn. lia.
Qed.

Lemma js_slice_app (s : list A) (a b c : Z) :
  0 <= a -> a <= b -> b <= c -> c <= zlen s ->
  js_slice s a b ++ js_slice s b c = js_slice s a c.
Proof.
  intros Ha Hab Hbc Hc. rewrite !js_slice_in by lia.
  replace (Z.to_nat (c - a)) with (Z.to_nat (b - a) + Z.to_nat (c - b))%nat by lia.
  rewrite firstn_plus, skipn_skipn.
  replace (Z.to_nat (b - a) + Z.to_nat a)%nat with (Z.to_nat b) by lia.
  reflexivity.
Qed.

Lemma js_slice_full (s : list A) : js_slice s 0 (zlen s) = s.
Proof.
  rewrite js_slice_in by (unfold zlen; lia). simpl.
  apply firstn_all2. unfold zlen. lia.
Qed.

Lemma js_slice_empty (s : list A) (a : Z) : 0 <= a -> js_slice s a a = [].
Proof.
  intros Ha. unfold js_slice.
  destruct (a <? 0) eqn:E; [apply Z.ltb_lt in E; lia|].
  rewrite Z.sub_diag. reflexivity.
Qed.

Lemma skipn_js_slice (s : list A) (d a b : Z) :
  0 <= d -> 0 <= a -> a <= b -> b <= zlen s ->
  skipn (Z.to_nat d) (js_slice s a b) = js_slice s (Z.min (a + d) b) b.
Proof.
  intros Hd Ha Hab Hb. rewrite !js_slice_in by lia.
  rewrite skipn_firstn_comm, skipn_skipn.
  destruct (Z.le_ge_cases (a + d) b) as [H|H].
  - rewrite Z.min_l by lia. f_equal; [lia|f_equal; lia].
  - rewrite Z.min_r by lia. rewrite Z.sub_diag.
    replace (Z.to_nat (b - a) - Z.to_nat d)%nat with 0%nat by lia. reflexivity.
Qed.

End Slices.

(** ** Layout of the character chunks *)

Lemma char_loop_nonempty_step (content : list ascii) (cs ov i : Z) (fuel : nat) (r : list TextChunk) :
  char_loop fuel content cs ov i = Some r -> i < zlen content -> 0 < cs - ov.
Proof.
  intros H Hi. destruct (Z.lt_ge_cases 0 (cs - ov)) as [|Hs]; [assumption|].
  rewrite char_loop_stuck in H by assumption. discriminate.
Qed.

Lemma char_loop_layout (content : list ascii) (cs ov : Z) :
  0 < cs ->
  forall fuel i r, 0 <= i -> char_loop fuel content cs ov i = Some r ->
  (forall c, In c r -> i <= startOffset c /\ chunk_in_bounds content c) /\
  Sorted (fun a b => startOffset a < startOffset b) r.
Proof.
  intros Hcs fuel. induction fuel as [|f IH]; intros i r Hi H; simpl in H; [discriminate|].
  destruct (i <? zlen content) eqn:E.
  - apply Z.ltb_lt in E.
    destruct (char_loop f content cs ov (i + (cs - ov))) as [r'|] eqn:Hr; [|discriminate].
    injection H as <-.
    assert (Hstep : 0 < cs - ov).
    { apply (char_loop_nonempty_step content cs ov i (S f) (chunk_of content i (Z.min (i + cs) (zlen content)) :: r')).
      - simpl. rewrite (proj2 (Z.ltb_lt _ _) E), Hr. reflexivity.
      - exact E. }
    destruct (IH (i + (cs - ov)) r' ltac:(lia) Hr) as [Hin Hs].
    split.
    + intros c [<-|Hc].
      * unfold chunk_in_bounds, chunk_of; simpl. repeat split; lia.
      * destruct (Hin c Hc) as [Hle Hb]. split; [lia|exact Hb].
    + constructor; [exact Hs|].
      destruct r' as [|c r'']; constructor.
      destruct (Hin c (or_introl eq_refl)) as [Hle _]. simpl. lia.
  - injection H as <-. split; [intros c []|constructor].
Qed.

Lemma char_loop_tail (content : list ascii) (cs ov : Z) :
  0 < cs -> 0 <= ov ->
  forall fuel i r, 0 <= i -> char_loop fuel content cs ov i = Some r ->
  concat (map (fun c => skipn (Z.to_nat ov) (text c)) r) =
  js_slice content (Z.min (i + ov) (zlen content)) (zlen content).
Proof.
  intros Hcs Hov fuel. induction fuel as [|f IH]; intros i r Hi H; simpl in H; [discriminate|].
  destruct (i <? zlen content) eqn:E.
  - apply Z.ltb_lt in E.
    destruct (char_loop f content cs ov (i + (cs - ov))) as [r'|] eqn:Hr; [|discriminate].
    injection H as <-.
    assert (Hstep : 0 < cs - ov).
    { apply (char_loop_nonempty_step content cs ov i (S f) (chunk_of content i (Z.min (i + cs) (zlen content)) :: r')).
      - simpl. rewrite (proj2 (Z.ltb_lt _ _) E), Hr. reflexivity.
      - exact E. }
    simpl. rewrite (IH (i + (cs - ov)) r' ltac:(lia) Hr).
    rewrite skipn_js_slice by lia.
    replace (Z.min (i + (cs - ov) + ov) (zlen content))
      with (Z.min (i + cs) (zlen content)) by lia.
    rewrite js_slice_app by lia. f_equal. lia.
  - injection H as <-. apply Z.ltb_ge in E.
    pose proof (zlen_nonneg content).
    rewrite Z.min_r by lia. simpl. rewrite js_slice_empty by lia. reflexivity.
Qed.

Lemma char_loop_reconstruct (content : list ascii) (cs ov : Z) (fuel : nat) (r : list TextChunk) :
  0 < cs -> 0 <= ov -> char_loop fuel content cs ov 0 = Some r ->
  reconstruct ov r = content.
Proof.
  intros Hcs Hov H. destruct fuel as [|f]; simpl in H; [discriminate|].
  destruct (0 <? zlen content) eqn:E.
  - apply Z.ltb_lt in E.
    destruct (char_loop f content cs ov (0 + (cs - ov))) as [r'|] eqn:Hr; [|discriminate].
    injection H as <-.
    assert (Hstep : 0 < cs - ov).
    { apply (char_loop_nonempty_step content cs ov 0 (S f) (chunk_of content 0 (Z.min (0 + cs) (zlen content)) :: r')).
      - simpl. rewrite (proj2 (Z.ltb_lt _ _) E), Hr. reflexivity.
      - exact E. }
    simpl. rewrite (char_loop_tail content cs ov Hcs Hov f (0 + (cs - ov)) r' ltac:(lia) Hr).
    replace (Z.min (0 + (cs - ov) + ov) (zlen content)) with (Z.min (0 + cs) (zlen content)) by lia.
    rewrite js_slice_app by lia. apply js_slice_full.
  - injection H as <-. apply Z.ltb_ge in E.
    destruct content; [reflexivity|unfold zlen in E; simpl in E; lia].
Qed.

(** ** Paragraphs *)

Lemma split_nl_cons (s : list ascii) : exists l ls, split_nl s = l :: ls.
Proof.
  destruct s as [|c cs]; simpl; [eauto|].
  destruct (ascii_dec c newline); [eauto|].
  destruct (split_nl cs); eauto.
Qed.

Lemma join_split_nl (s : list ascii) : join_nl (split_nl s) = s.
Proof.
  induction s as [|c cs IH]; [reflexivity|]. cbn [split_nl].
  destruct (split_nl_cons cs) as [l [ls Hs]]. rewrite Hs in *.
  destruct (ascii_dec c newline) as [->|Hc].
  - change (join_nl ([] :: l :: ls)) with ([] ++ newline :: join_nl (l :: ls)).
    rewrite IH. reflexivity.
  - destruct ls as [|l' ls]; simpl in *; rewrite IH; reflexivity.
Qed.

Lemma join_nl_cons (l : list ascii) (rest : list (list ascii)) :
  join_nl (l :: rest) = l ++ match rest with [] => [] | _ => newline :: join_nl rest end.
Proof. destruct rest; simpl; [rewrite app_nil_r|]; reflexivity. Qed.

Lemma is_blank_app (x y : list ascii) : is_blank (x ++ y) = (is_blank x && is_blank y)%bool.
Proof. apply forallb_app. Qed.

Lemma nonblank_widen (G : list ascii) (a b c d : Z) :
  is_blank (js_slice G b c) = false ->
  0 <= a -> a <= b -> b <= c -> c <= d -> d <= zlen G ->
  is_blank (js_slice G a d) = false.
Proof.
  intros H Ha Hab Hbc Hcd Hd.
  rewrite <- (js_slice_app G a b d), <- (js_slice_app G b c d) by lia.
  rewrite !is_blank_app, H. destruct (is_blank (js_slice G a b)); reflexivity.
Qed.

Lemma js_slice_prefix (G l t : list ascii) (o : Z) :
  0 <= o -> o <= zlen G -> skipn (Z.to_nat o) G = l ++ t ->
  o + zlen l <= zlen G /\ js_slice G o (o + zlen l) = l.
Proof.
  intros Ho HoG Hs.
  assert (Hlen : length (skipn (Z.to_nat o) G) = (length l + length t)%nat)
    by (rewrite Hs; apply length_app).
  rewrite length_skipn in Hlen.
  assert (Hb : o + zlen l <= zlen G) by (unfold zlen in *; lia).
  split; [exact Hb|].
  rewrite js_slice_in by (unfold zlen in *; lia).
  rewrite Hs. replace (Z.to_nat (o + zlen l - o)) with (length l) by (unfold zlen; lia).
  rewrite firstn_app, Nat.sub_diag, firstn_all. simpl. apply app_nil_r.
Qed.

Lemma js_slice_clamp (G : list ascii) (a b : Z) :
  zlen G <= b -> js_slice G a b = js_slice G a (zlen G).
Proof.
  intros Hb. unfold js_slice. fold (zlen G). pose proof (zlen_nonneg G).
  destruct (b <? 0) eqn:E1; [apply Z.ltb_lt in E1; lia|].
  destruct (zlen G <? 0) eqn:E2; [apply Z.ltb_lt in E2; lia|].
  rewrite (Z.min_r b), (Z.min_l (zlen G)) by lia. reflexivity.
Qed.

Lemma scan_lines_layout (G : list ascii) :
  forall lines o ps pl fin,
  lines <> [] -> 0 <= o -> o <= zlen G ->
  skipn (Z.to_nat o) G = join_nl lines ->
  0 <= ps <= o ->
  (ps < o -> is_blank (js_slice G ps o) = false) ->
  scan_lines lines o ps = (pl, fin) ->
  (forall p, In p pl ->
     ps <= p.1 /\ p.1 < p.2 /\ p.2 <= zlen G /\
     is_blank (js_slice G p.1 p.2) = false /\ p.2 < fin) /\
  Sorted (fun a b => a.2 < b.1) pl /\
  ps <= fin /\
  (fin < zlen G -> is_blank (js_slice G fin (zlen G)) = false).
Proof.
  induction lines as [|l rest IH]; intros o ps pl fin Hne Ho HoG Hskip Hps Hinv Hscan;
    [congruence|].
  rewrite join_nl_cons in Hskip.
  destruct (js_slice_prefix G l _ o Ho HoG Hskip) as [Hol Hl].
  pose proof (zlen_nonneg l) as Hl0.
  assert (Hrest : rest <> [] ->
            o + zlen l + 1 <= zlen G /\
            skipn (Z.to_nat (o + zlen l + 1)) G = join_nl rest).
  { intros Hr. destruct rest as [|r rs]; [congruence|].
    assert (Hsk : skipn (length l + 1) (skipn (Z.to_nat o) G) = join_nl (r :: rs)).
    { rewrite Hskip. replace (length l + 1)%nat with (1 + length l)%nat by lia.
      rewrite <- skipn_skipn, skipn_app, skipn_all, Nat.sub_diag. reflexivity. }
    rewrite skipn_skipn in Hsk.
    assert (Hlen : length (skipn (Z.to_nat o) G) =
                   (length l + S (length (join_nl (r :: rs))))%nat)
      by (rewrite Hskip, length_app; reflexivity).
    rewrite length_skipn in Hlen.
    split; [unfold zlen in *; lia|].
    rewrite <- Hsk. f_equal. unfold zlen. lia. }
  assert (Hlast : rest = [] -> o + zlen l = zlen G).
  { intros ->. simpl in Hskip. rewrite app_nil_r in Hskip.
    assert (Hlen : length (skipn (Z.to_nat o) G) = length l) by (rewrite Hskip; reflexivity).
    rewrite length_skipn in Hlen. unfold zlen in *. lia. }
  simpl in Hscan.
  destruct (is_blank l) eqn:Hbl.
  - destruct (scan_lines rest (o + zlen l + 1) (o + zlen l + 1)) as [ps2 fin2] eqn:Hs2.
    injection Hscan as Hpl Hfin. subst fin.
    assert (IHr : (forall p, In p ps2 ->
                     o + zlen l + 1 <= p.1 /\ p.1 < p.2 /\ p.2 <= zlen G /\
                     is_blank (js_slice G p.1 p.2) = false /\ p.2 < fin2) /\
                  Sorted (fun a b => a.2 < b.1) ps2 /\
                  o + zlen l + 1 <= fin2 /\
                  (fin2 < zlen G -> is_blank (js_slice G fin2 (zlen G)) = false)).
    { destruct rest as [|r rs].
      - simpl in Hs2. injection Hs2 as <- <-. pose proof (Hlast eq_refl).
        split; [intros p []|]. split; [constructor|]. split; lia.
      - destruct (Hrest ltac:(congruence)) as [Hb Hsk].
        apply (IH (o + zlen l + 1) (o + zlen l + 1)); try assumption; try congruence; try lia; intros; lia. }
    destruct IHr as (Hin & Hsort & Hfin2 & Htail).
    subst pl. destruct (ps <? o) eqn:Hlt.
    + apply Z.ltb_lt in Hlt.
      split; [|split; [|split]].
      * intros p [<-|Hp]; simpl.
        -- repeat split; try lia. apply Hinv, Hlt.
        -- destruct (Hin p Hp) as (? & ? & ? & ? & ?). repeat split; try lia; assumption.
      * constructor; [exact Hsort|].
        destruct ps2 as [|q qs]; constructor.
        destruct (Hin q (or_introl eq_refl)) as (? & _). simpl. lia.
      * lia.
      * exact Htail.
    + split; [|split; [|split]].
      * intros p Hp. destruct (Hin p Hp) as (? & ? & ? & ? & ?). repeat split; try lia; assumption.
      * exact Hsort.
      * lia.
      * exact Htail.
  - destruct rest as [|r rs].
    + simpl in Hscan. injection Hscan as <- <-. pose proof (Hlast eq_refl).
      split; [intros p []|]. split; [constructor|]. split; [lia|].
      intros Hlt. apply (nonblank_widen G ps o (o + zlen l) (zlen G)); try lia.
      rewrite Hl. exact Hbl.
    + destruct (Hrest ltac:(congruence)) as [Hb Hsk].
      apply (IH (o + zlen l + 1) ps); try assumption; try congruence; try lia.
      intros _. apply (nonblank_widen G ps o (o + zlen l) (o + zlen l + 1)); try lia.
      rewrite Hl. exact Hbl.
Qed.

Lemma Sorted_snoc {A} (Rel : A -> A -> Prop) (l : list A) (x : A) :
  Sorted Rel l -> (forall y, In y l -> Rel y x) -> Sorted Rel (l ++ [x]).
Proof.
  induction 1 as [|y ys Hs IH Hhd]; intros Hall; simpl.
  - repeat constructor.
  - constructor.
    + apply IH. intros z Hz. apply Hall. right. exact Hz.
    + destruct ys as [|z zs]; simpl; constructor.
      * apply Hall. left. reflexivity.
      * inversion Hhd. assumption.
Qed.

Lemma paragraphs_layout (content : list ascii) :
  (forall p, In p (paragraphs_of content) ->
     0 <= p.1 /\ p.1 < p.2 /\ p.2 <= zlen content /\
     is_blank (js_slice content p.1 p.2) = false) /\
  Sorted (fun a b => a.2 < b.1) (paragraphs_of content).
Proof.
  unfold paragraphs_of.
  destruct (scan_lines (split_nl content) 0 0) as [pl fin] eqn:Hs.
  pose proof (zlen_nonneg content) as Hc0.
  destruct (split_nl_cons content) as [l [ls Hl]].
  destruct (scan_lines_layout content (split_nl content) 0 0 pl fin)
    as (Hin & Hsort & Hfin & Htail); try lia; try assumption.
  - rewrite Hl. congruence.
  - rewrite join_split_nl. reflexivity.
  - split.
    + intros p Hp. apply in_app_or in Hp as [Hp|Hp].
      * destruct (Hin p Hp) as (? & ? & ? & ? & ?). repeat split; try lia; assumption.
      * destruct (fin <? zlen content) eqn:E; [|destruct Hp].
        apply Z.ltb_lt in E. destruct Hp as [<-|[]]. simpl.
        repeat split; try lia. apply Htail, E.
    + destruct (fin <? zlen content) eqn:E; [|rewrite app_nil_r; exact Hsort].
      apply Sorted_snoc; [exact Hsort|]. intros y Hy. simpl.
      destruct (Hin y Hy) as (_ & _ & _ & _ & ?). exact H.
Qed.

(** ** Paragraph boundaries, in terms of lines *)

Lemma blank_line_at_skip (l : list ascii) (rest : list (list ascii)) (k : Z) :
  zlen l < k -> blank_line_at (l :: rest) k = blank_line_at rest (k - zlen l - 1).
Proof.
  intros H. simpl. destruct (k <=? zlen l) eqn:E; [apply Z.leb_le in E; lia|reflexivity].
Qed.

Lemma blank_line_at_here (l : list ascii) (rest : list (list ascii)) (k : Z) :
  k <= zlen l -> blank_line_at (l :: rest) k = is_blank l.
Proof.
  intros H. simpl. destruct (k <=? zlen l) eqn:E; [reflexivity|apply Z.leb_gt in E; lia].
Qed.

Lemma scan_lines_boundaries :
  forall lines o ps pl fin,
  scan_lines lines o ps = (pl, fin) ->
  (forall p, In p pl ->
     (p.1 = ps \/ (o < p.1 /\ blank_line_at lines (p.1 - 1 - o) = true)) /\
     o <= p.2 /\ blank_line_at lines (p.2 - o) = true) /\
  (fin = ps \/ (o < fin /\ blank_line_at lines (fin - 1 - o) = true)).
Proof.
  induction lines as [|l rest IH]; intros o ps pl fin Hscan; simpl in Hscan.
  - injection Hscan as <- <-. split; [intros p []|left; reflexivity].
  - pose proof (zlen_nonneg l) as Hl0.
    destruct (is_blank l) eqn:Hbl.
    + destruct (scan_lines rest (o + zlen l + 1) (o + zlen l + 1)) as [ps2 fin2] eqn:Hs2.
      injection Hscan as Hpl Hfin. subst fin.
      destruct (IH _ _ _ _ Hs2) as [Hin Hf].
      assert (Hshift : forall s, o + zlen l + 1 <= s ->
                blank_line_at (l :: rest) (s - 1 - o) =
                  (if s =? o + zlen l + 1 then true else blank_line_at rest (s - 1 - (o + zlen l + 1)))).
      { intros s Hs. destruct (s =? o + zlen l + 1) eqn:E.
        - apply Z.eqb_eq in E. rewrite blank_line_at_here by lia. exact Hbl.
        - apply Z.eqb_neq in E. rewrite blank_line_at_skip by lia. f_equal. lia. }
      split.
      * assert (Hrest : forall p, In p ps2 ->
                  (p.1 = ps \/ (o < p.1 /\ blank_line_at (l :: rest) (p.1 - 1 - o) = true)) /\
                  o <= p.2 /\ blank_line_at (l :: rest) (p.2 - o) = true).
        { intros p Hp. destruct (Hin p Hp) as [Hs [He Hb]].
          split; [right|split; [lia|]].
          - destruct Hs as [Hs|[Hs Hb1]].
            + split; [lia|]. rewrite Hshift by lia. rewrite Hs, Z.eqb_refl. reflexivity.
            + split; [lia|]. rewrite Hshift by lia.
              destruct (p.1 =? o + zlen l + 1); [reflexivity|exact Hb1].
          - rewrite blank_line_at_skip by lia.
            replace (p.2 - o - zlen l - 1) with (p.2 - (o + zlen l + 1)) by lia. exact Hb. }
        subst pl. destruct (ps <? o) eqn:Hlt; [|exact Hrest].
        intros p [<-|Hp]; [|apply Hrest, Hp].
        split; [left; reflexivity|]. split; [simpl; lia|].
        rewrite blank_line_at_here by (simpl; lia). exact Hbl.
      * right. destruct Hf as [Hf|[Hf Hb1]].
        -- split; [lia|]. rewrite Hshift by lia. rewrite Hf, Z.eqb_refl. reflexivity.
        -- split; [lia|]. rewrite Hshift by lia.
           destruct (fin2 =? o + zlen l + 1); [reflexivity|exact Hb1].
    + destruct (IH _ _ _ _ Hscan) as [Hin Hf].
      split.
      * intros p Hp. destruct (Hin p Hp) as [Hs [He Hb]].
        split; [|split; [lia|]].
        -- destruct Hs as [Hs|[Hs Hb1]]; [left; exact Hs|right].
           split; [lia|]. rewrite blank_line_at_skip by lia.
           replace (p.1 - 1 - o - zlen l - 1) with (p.1 - 1 - (o + zlen l + 1)) by lia. exact Hb1.
        -- rewrite blank_line_at_skip by lia.
           replace (p.2 - o - zlen l - 1) with (p.2 - (o + zlen l + 1)) by lia. exact Hb.
      * destruct Hf as [Hf|[Hf Hb1]]; [left; exact Hf|right].
        split; [lia|]. rewrite blank_line_at_skip by lia.
        replace (fin - 1 - o - zlen l - 1) with (fin - 1 - (o + zlen l + 1)) by lia. exact Hb1.
Qed.

Lemma paragraphs_boundaries (content : list ascii) :
  forall p, In p (paragraphs_of content) ->
  ~ inside_paragraph content p.1 /\ ~ inside_paragraph content p.2.
Proof.
  unfold paragraphs_of.
  destruct (scan_lines (split_nl content) 0 0) as [pl fin] eqn:Hs.
  destruct (scan_lines_boundaries _ _ _ _ _ Hs) as [Hin Hf].
  intros p Hp. unfold inside_paragraph.
  apply in_app_or in Hp as [Hp|Hp].
  - destruct (Hin p Hp) as [Hs1 [He Hb]]. split.
    + intros (Hr & H1 & _). destruct Hs1 as [Hs1|[_ Hb1]]; [lia|].
      rewrite Z.sub_0_r in Hb1. congruence.
    + intros (_ & _ & H2). rewrite Z.sub_0_r in Hb. congruence.
  - destruct (fin <? zlen content); [|destruct Hp].
    destruct Hp as [<-|[]]. simpl. split.
    + intros (Hr & H1 & _). destruct Hf as [Hf|[_ Hb1]]; [lia|].
      rewrite Z.sub_0_r in Hb1. congruence.
    + intros (Hr & _). lia.
Qed.

Lemma chain_strongly_sorted (l : list (Z * Z)) :
  Sorted (fun a b => a.2 < b.1) l -> (forall p, In p l -> p.1 < p.2) ->
  StronglySorted (fun a b => a.2 < b.1) l.
Proof.
  induction l as [|a l IH]; intros Hs Hwf; [constructor|].
  apply Sorted_inv in Hs as [Hs Hhd].
  assert (Hss : StronglySorted (fun a b => a.2 < b.1) l)
    by (apply IH; [exact Hs|intros p Hp; apply Hwf; right; exact Hp]).
  constructor; [exact Hss|].
  apply List.Forall_forall. intros q Hq.
  destruct l as [|b l']; [destruct Hq|].
  apply HdRel_inv in Hhd.
  destruct Hq as [Hq|Hq]; [subst q; exact Hhd|].
  apply StronglySorted_inv in Hss as [_ Hall].
  rewrite List.Forall_forall in Hall. specialize (Hall q Hq).
  assert (b.1 < b.2) by (apply Hwf; right; left; reflexivity). lia.
Qed.

Lemma nonblank_length (s : list ascii) : is_blank s = false -> 0 < zlen s.
Proof. destruct s; [discriminate|unfold zlen; simpl; lia]. Qed.

(** ** The merging loop of the paragraph strategy *)

Section Merge.
Variable content : list ascii.
Variable cs : Z.

Lemma merge_origin : forall ps cS cE cL c,
  In c (merge_paragraphs content cs ps cS cE cL) ->
  ((cS <> -1 /\ startOffset c = cS) \/ exists p, In p ps /\ startOffset c = p.1) /\
  ((cS <> -1 /\ endOffset c = cE) \/ exists p, In p ps /\ endOffset c = p.2) /\
  text c = js_slice content (startOffset c) (endOffset c).
Proof.
  induction ps as [|[s e] rest IH]; intros cS cE cL c Hc; simpl in Hc.
  - destruct (cS =? -1) eqn:E; [destruct Hc|].
    apply Z.eqb_neq in E. destruct Hc as [<-|[]]. simpl.
    split; [left; split; auto|split; [left; split; auto|reflexivity]].
  - destruct (is_blank (js_slice content s e)).
    { destruct (IH _ _ _ _ Hc) as (H1 & H2 & H3).
      split; [|split; [|exact H3]].
      - destruct H1 as [H1|[p [Hp H1]]]; [left; exact H1|].
        right; exists p; split; [right; exact Hp|exact H1].
      - destruct H2 as [H2|[p [Hp H2]]]; [left; exact H2|].
        right; exists p; split; [right; exact Hp|exact H2]. }
    destruct (cS =? -1) eqn:E.
    { destruct (IH _ _ _ _ Hc) as (H1 & H2 & H3).
      split; [|split; [|exact H3]]; right.
      - destruct H1 as [[_ H1]|[p [Hp H1]]].
        + exists (s, e); split; [left; reflexivity|exact H1].
        + exists p; split; [right; exact Hp|exact H1].
      - destruct H2 as [[_ H2]|[p [Hp H2]]].
        + exists (s, e); split; [left; reflexivity|exact H2].
        + exists p; split; [right; exact Hp|exact H2]. }
    apply Z.eqb_neq in E.
    destruct ((cs <? cL + (s - cE) + zlen (js_slice content s e)) && (0 <? cL))%bool.
    + destruct Hc as [<-|Hc].
      { simpl. split; [left; split; auto|split; [left; split; auto|reflexivity]]. }
      destruct (IH _ _ _ _ Hc) as (H1 & H2 & H3).
      split; [|split; [|exact H3]]; right.
      * destruct H1 as [[_ H1]|[p [Hp H1]]].
        -- exists (s, e); split; [left; reflexivity|exact H1].
        -- exists p; split; [right; exact Hp|exact H1].
      * destruct H2 as [[_ H2]|[p [Hp H2]]].
        -- exists (s, e); split; [left; reflexivity|exact H2].
        -- exists p; split; [right; exact Hp|exact H2].
    + destruct (IH _ _ _ _ Hc) as (H1 & H2 & H3).
      split; [|split; [|exact H3]].
      * destruct H1 as [[_ H1]|[p [Hp H1]]]; [left; split; assumption|].
        right; exists p; split; [right; exact Hp|exact H1].
      * right. destruct H2 as [[_ H2]|[p [Hp H2]]].
        -- exists (s, e); split; [left; reflexivity|exact H2].
        -- exists p; split; [right; exact Hp|exact H2].
Qed.


Lemma well_placed_tail (p : Z * Z) (ps : list (Z * Z)) :
  well_placed content (p :: ps) -> well_placed content ps.
Proof. intros H q Hq. apply H. right. exact Hq. Qed.

Lemma merge_layout : forall ps cS cE cL,
  well_placed content ps ->
  StronglySorted (fun a b => a.2 < b.1) ps ->
  (cS = -1 \/ (0 <= cS /\ cS < cE /\ cE <= zlen content /\ forall p, In p ps -> cE < p.1)) ->
  (forall c, In c (merge_paragraphs content cs ps cS cE cL) -> chunk_in_bounds content c) /\
  Sorted (fun a b => endOffset a < startOffset b) (merge_paragraphs content cs ps cS cE cL).
Proof.
  induction ps as [|[s e] rest IH]; intros cS cE cL Hwp Hss Hopen; simpl.
  - destruct (cS =? -1) eqn:E; [split; [intros c []|constructor]|].
    apply Z.eqb_neq in E. destruct Hopen as [|(H0 & H1 & H2 & _)]; [contradiction|].
    split; [|repeat constructor].
    intros c [<-|[]]. unfold chunk_in_bounds, chunk_of; simpl. repeat split; lia.
  - pose proof (Hwp (s, e) (or_introl eq_refl)) as (Hs0 & Hse & He); simpl in Hs0, Hse, He.
    apply StronglySorted_inv in Hss as [Hss Hfa]. rewrite List.Forall_forall in Hfa.
    pose proof (well_placed_tail _ _ Hwp) as Hwp'.
    assert (Hafter : forall p, In p rest -> e < p.1) by (intros p Hp; exact (Hfa p Hp)).
    destruct (is_blank (js_slice content s e)).
    { apply IH; [exact Hwp'|exact Hss|].
      destruct Hopen as [H|(H0 & H1 & H2 & H3)]; [left; exact H|right].
      repeat split; try assumption. intros p Hp. apply H3. right. exact Hp. }
    destruct (cS =? -1) eqn:E.
    { apply IH; [exact Hwp'|exact Hss|right]. repeat split; assumption. }
    apply Z.eqb_neq in E.
    destruct Hopen as [|(H0 & H1 & H2 & H3)]; [contradiction|].
    assert (HcE : cE < s) by exact (H3 (s, e) (or_introl eq_refl)).
    destruct ((cs <? cL + (s - cE) + zlen (js_slice content s e)) && (0 <? cL))%bool.
    + destruct (IH s e (zlen (js_slice content s e)) Hwp' Hss) as [Hin Hsort];
        [right; repeat split; assumption|].
      split.
      * intros c [<-|Hc]; [|exact (Hin c Hc)].
        unfold chunk_in_bounds, chunk_of; simpl. repeat split; lia.
      * constructor; [exact Hsort|].
        destruct (merge_paragraphs content cs rest s e (zlen (js_slice content s e)))
          as [|c r] eqn:Hm; constructor.
        simpl. destruct (merge_origin rest s e (zlen (js_slice content s e)) c)
          as [[[_ Hc]|[p [Hp Hc]]] _]; [rewrite Hm; left; reflexivity| |]; rewrite Hc.
        -- lia.
        -- pose proof (Hafter p Hp). lia.
    + apply IH; [exact Hwp'|exact Hss|right]. repeat split; try assumption; lia.
Qed.

Lemma merge_keeps_open : forall ps s e L,
  0 <= s -> cs < L -> 0 < L ->
  (forall q, In q ps -> e < q.1) ->
  In (chunk_of content s e) (merge_paragraphs content cs ps s e L).
Proof.
  induction ps as [|[s' e'] rest IH]; intros s e L Hs HL HL0 Hafter; simpl.
  - destruct (s =? -1) eqn:E; [apply Z.eqb_eq in E; lia|left; reflexivity].
  - assert (He : e < s') by exact (Hafter (s', e') (or_introl eq_refl)).
    assert (Hrest : forall q, In q rest -> e < q.1)
      by (intros q Hq; apply Hafter; right; exact Hq).
    destruct (is_blank (js_slice content s' e')); [apply IH; assumption|].
    destruct (s =? -1) eqn:E; [apply Z.eqb_eq in E; lia|].
    pose proof (zlen_nonneg (js_slice content s' e')).
    replace ((cs <? L + (s' - e) + zlen (js_slice content s' e')) && (0 <? L))%bool with true
      by (symmetry; apply andb_true_intro; split; apply Z.ltb_lt; lia).
    left. reflexivity.
Qed.

Lemma merge_oversized : forall ps cS cE cL p,
  well_placed content ps ->
  StronglySorted (fun a b => a.2 < b.1) ps ->
  (forall q, In q ps -> is_blank (js_slice content q.1 q.2) = false) ->
  (cS = -1 \/ (0 <= cS /\ 0 < cL /\ forall q, In q ps -> cE < q.1)) ->
  In p ps -> cs < p.2 - p.1 ->
  In (chunk_of content p.1 p.2) (merge_paragraphs content cs ps cS cE cL).
Proof.
  induction ps as [|[s e] rest IH]; intros cS cE cL p Hwp Hss Hnb Hopen Hp Hbig;
    [destruct Hp|]; simpl.
  pose proof (Hwp (s, e) (or_introl eq_refl)) as (Hs0 & Hse & He); simpl in Hs0, Hse, He.
  pose proof (Hnb (s, e) (or_introl eq_refl)) as Hnbse; simpl in Hnbse. rewrite Hnbse.
  apply StronglySorted_inv in Hss as [Hss Hfa]. rewrite List.Forall_forall in Hfa.
  pose proof (well_placed_tail _ _ Hwp) as Hwp'.
  assert (Hnb' : forall q, In q rest -> is_blank (js_slice content q.1 q.2) = false)
    by (intros q Hq; apply Hnb; right; exact Hq).
  assert (Hafter : forall q, In q rest -> e < q.1) by (intros q Hq; exact (Hfa q Hq)).
  pose proof (nonblank_length _ Hnbse) as Hlen.
  rewrite (zlen_js_slice content s e) in * by lia.
  destruct Hp as [<-|Hp]; simpl in Hbig |- *.
  - destruct (cS =? -1) eqn:E.
    + apply merge_keeps_open; assumption.
    + apply Z.eqb_neq in E.
      destruct Hopen as [|(H0 & H1 & H2)]; [contradiction|].
      assert (HcE : cE < s) by exact (H2 (s, e) (or_introl eq_refl)).
      replace ((cs <? cL + (s - cE) + (e - s)) && (0 <? cL))%bool with true
        by (symmetry; apply andb_true_intro; split; apply Z.ltb_lt; lia).
      right. apply merge_keeps_open; assumption.
  - destruct (cS =? -1) eqn:E.
    + apply IH; try assumption. right. repeat split; assumption.
    + apply Z.eqb_neq in E.
      destruct Hopen as [|(H0 & H1 & H2)]; [contradiction|].
      assert (HcE : cE < s) by exact (H2 (s, e) (or_introl eq_refl)).
      destruct ((cs <? cL + (s - cE) + (e - s)) && (0 <? cL))%bool.
      * right. apply IH; try assumption. right. repeat split; assumption.
      * apply IH; try assumption. right. repeat split; try assumption. lia.
Qed.

End Merge.

(** ** Ordered lists of chunks *)

Lemma chain_strongly_sorted_by {A} (f g : A -> Z) (l : list A) :
  Sorted (fun a b => g a < f b) l -> (forall x, In x l -> f x < g x) ->
  StronglySorted (fun a b => g a < f b) l.
Proof.
  induction l as [|a l IH]; intros Hs Hwf; [constructor|].
  apply Sorted_inv in Hs as [Hs Hhd].
  assert (Hss : StronglySorted (fun a b => g a < f b) l)
    by (apply IH; [exact Hs|intros x Hx; apply Hwf; right; exact Hx]).
  constructor; [exact Hss|].
  apply List.Forall_forall. intros q Hq.
  destruct l as [|b l']; [destruct Hq|].
  apply HdRel_inv in Hhd.
  destruct Hq as [Hq|Hq]; [subst q; exact Hhd|].
  apply StronglySorted_inv in Hss as [_ Hall].
  rewrite List.Forall_forall in Hall. specialize (Hall q Hq).
  assert (f b < g b) by (apply Hwf; right; left; reflexivity). lia.
Qed.

Lemma strongly_sorted_trichotomy {A} (Rel : A -> A -> Prop) (l : list A) (x y : A) :
  StronglySorted Rel l -> In x l -> In y l -> x = y \/ Rel x y \/ Rel y x.
Proof.
  induction 1 as [|a l Hs IH Hfa]; intros Hx Hy; [destruct Hx|].
  rewrite List.Forall_forall in Hfa.
  destruct Hx as [<-|Hx], Hy as [<-|Hy].
  - left. reflexivity.
  - right. left. apply Hfa, Hy.
  - right. right. apply Hfa, Hx.
  - apply IH; assumption.
Qed.

Lemma Sorted_weaken {A} (Rel Rel' : A -> A -> Prop) (l : list A) :
  Sorted Rel l -> (forall a b, In a l -> In b l -> Rel a b -> Rel' a b) -> Sorted Rel' l.
Proof.
  induction 1 as [|a l Hs IH Hhd]; intros Himp; constructor.
  - apply IH. intros x y Hx Hy. apply Himp; right; assumption.
  - destruct l as [|b l']; constructor. apply HdRel_inv in Hhd.
    apply Himp; [left; reflexivity|right; left; reflexivity|exact Hhd].
Qed.

Lemma paragraph_chunks_layout (content : list ascii) (cs : Z) :
  let chunks := merge_paragraphs content cs (paragraphs_of content) (-1) (-1) 0 in
  (forall c, In c chunks -> chunk_in_bounds content c) /\
  Sorted (fun a b => endOffset a < startOffset b) chunks.
Proof.
  intros chunks. destruct (paragraphs_layout content) as [Hin Hsort].
  apply merge_layout; [| |left; reflexivity].
  - intros p Hp. destruct (Hin p Hp) as (? & ? & ? & _). repeat split; assumption.
  - apply chain_strongly_sorted; [exact Hsort|].
    intros p Hp. destruct (Hin p Hp) as (_ & ? & _). assumption.
Qed.

Lemma chunk_layout_strict (content : list ascii) (chunks : list TextChunk) :
  (forall c, In c chunks -> chunk_in_bounds content c) ->
  Sorted (fun a b => endOffset a < startOffset b) chunks ->
  StronglySorted (fun a b => endOffset a < startOffset b) chunks.
Proof.
  intros Hin Hs. apply (chain_strongly_sorted_by startOffset endOffset); [exact Hs|].
  intros c Hc. destruct (Hin c Hc) as (_ & ? & _). assumption.
Qed.

(** The total width of a list of chunks. *)
Definition spans (chunks : list TextChunk) : Z :=
  fold_right (fun c acc => (endOffset c - startOffset c) + acc) 0 chunks.

(** Chunks that lie in [[lo, hi]], each ending before the next starts,
    leave at least one character out between any two of them. *)
Lemma spans_bound (chunks : list TextChunk) : forall lo hi,
  StronglySorted (fun a b => endOffset a < startOffset b) chunks ->
  (forall c, In c chunks -> lo <= startOffset c /\ startOffset c < endOffset c /\ endOffset c <= hi) ->
  lo <= hi + 1 ->
  spans chunks + Z.of_nat (length chunks) <= hi - lo + 1.
Proof.
  induction chunks as [|c rest IH]; intros lo hi Hss Hin Hlo; simpl; [lia|].
  apply StronglySorted_inv in Hss as [Hss Hfa]. rewrite List.Forall_forall in Hfa.
  destruct (Hin c (or_introl eq_refl)) as (H1 & H2 & H3).
  assert (Hrest : spans rest + Z.of_nat (length rest) <= hi - (endOffset c + 1) + 1).
  { apply IH; [exact Hss| |lia].
    intros c' Hc'. destruct (Hin c' (or_intror Hc')) as (? & ? & ?).
    specialize (Hfa c' Hc'). repeat split; lia. }
  lia.
Qed.

(** Rebuilding a text from chunks never gives more characters than the
    chunks hold. *)
Lemma reconstruct_length (content : list ascii) (ov : Z) (chunks : list TextChunk) :
  (forall c, In c chunks -> chunk_in_bounds content c) ->
  zlen (reconstruct ov chunks) <= spans chunks.
Proof.
  assert (Hlen : forall c, chunk_in_bounds content c -> zlen (text c) = endOffset c - startOffset c).
  { intros c (H1 & H2 & H3 & Ht). rewrite Ht. apply zlen_js_slice; lia. }
  assert (Hrest : forall l, (forall c, In c l -> chunk_in_bounds content c) ->
            zlen (concat (map (fun c' => skipn (Z.to_nat ov) (text c')) l)) <= spans l).
  { induction l as [|c l IH]; intros Hin; simpl; [unfold zlen; simpl; lia|].
    pose proof (Hlen c (Hin c (or_introl eq_refl))) as Hc.
    assert (IH' := IH (fun c' Hc' => Hin c' (or_intror Hc'))).
    unfold zlen in *. rewrite length_app, length_skipn, Nat2Z.inj_add. lia. }
  intros Hin. destruct chunks as [|c cs]; simpl; [unfold zlen; simpl; lia|].
  pose proof (Hlen c (Hin c (or_introl eq_refl))) as Hc.
  assert (IH := Hrest cs (fun c' Hc' => Hin c' (or_intror Hc'))).
  unfold zlen in *. rewrite length_app, Nat2Z.inj_add. lia.
Qed.

(** C6 (as the code has it): for [chunkSize > 0], every chunk of
    [splitIntoChunks] lies within the text and carries the text between its
    offsets, and the start offsets are strictly increasing. In character mode
    with a non-negative overlap, the first chunk followed by every later
    chunk without its first [chunkOverlap] characters is the text again. In
    paragraph mode every chunk ends before the next one starts, so the
    characters between two consecutive chunks belong to no chunk: with two
    chunks or more, no overlap allowance rebuilds the text from the
    chunks. *)
Theorem splitIntoChunks_layout (st : Settings) (content : list ascii) (chunks : list TextChunk) :
  0 < chunkSize st ->
  splitIntoChunks st content = Some chunks ->
  (forall c, In c chunks -> chunk_in_bounds content c) /\
  Sorted (fun a b => startOffset a < startOffset b) chunks /\
  (chunkingStrategy st = Character -> 0 <= chunkOverlap st ->
     reconstruct (chunkOverlap st) chunks = content) /\
  (chunkingStrategy st = Paragraph ->
     Sorted (fun a b => endOffset a < startOffset b) chunks /\
     ((2 <= length chunks)%nat -> forall ov, reconstruct ov chunks <> content)).
Proof.
  intros Hcs H. unfold splitIntoChunks in H.
  destruct (chunkSize st =? 0) eqn:E0; [apply Z.eqb_eq in E0; lia|].
  destruct (chunkingStrategy st) eqn:Estrat.
  - destruct (char_loop_layout content (chunkSize st) (chunkOverlap st) Hcs
                (S (length content)) 0 chunks ltac:(lia) H) as [Hin Hs].
    split; [intros c Hc; apply (Hin c Hc)|].
    split; [exact Hs|]. split; [|discriminate].
    intros _ Hov. exact (char_loop_reconstruct _ _ _ _ _ Hcs Hov H).
  - injection H as <-.
    destruct (paragraph_chunks_layout content (chunkSize st)) as [Hin Hs].
    split; [exact Hin|]. split; [|split; [discriminate|intros _; split; [exact Hs|]]].
    + apply (Sorted_weaken _ _ _ Hs). intros a b Ha Hb Hab.
      destruct (Hin a Ha) as (_ & ? & _). lia.
    + intros H2 ov Heq.
      assert (Hb : spans (merge_paragraphs content (chunkSize st) (paragraphs_of content) (-1) (-1) 0)
                   + Z.of_nat (length (merge_paragraphs content (chunkSize st)
                                         (paragraphs_of content) (-1) (-1) 0))
                   <= zlen content - 0 + 1).
      { apply spans_bound; [apply (chunk_layout_strict content); assumption| |unfold zlen; lia].
        intros c Hc. destruct (Hin c Hc) as (? & ? & ? & _). repeat split; lia. }
      pose proof (reconstruct_length content ov _ Hin) as Hr.
      rewrite Heq in Hr. lia.
Qed.

Lemma splitIntoChunks_layout_witness :
  (forall c, In c sample_char_chunks -> chunk_in_bounds text22 c) /\
  Sorted (fun a b => startOffset a < startOffset b) sample_char_chunks /\
  (chunkingStrategy (sample_settings Character 10 4) = Character ->
     0 <= chunkOverlap (sample_settings Character 10 4) ->
     reconstruct (chunkOverlap (sample_settings Character 10 4)) sample_char_chunks = text22) /\
  (chunkingStrategy (sample_settings Character 10 4) = Paragraph ->
     Sorted (fun a b => endOffset a < startOffset b) sample_char_chunks /\
     ((2 <= length sample_char_chunks)%nat ->
        forall ov, reconstruct ov sample_char_chunks <> text22)).
Proof.
  apply (splitIntoChunks_layout (sample_settings Character 10 4) text22 sample_char_chunks);
    [reflexivity | vm_compute; reflexivity].
Defined.

(** C6 fails in paragraph mode on ["a\n\nb"] with [chunkSize = 1]: the two
    chunks are ["a\n"] and ["b"], and the blank line between them is in no
    chunk, so no overlap allowance gives the text back. *)
Lemma paragraph_split_drops_separator :
  splitIntoChunks (sample_settings Paragraph 1 0) two_paragraphs =
    Some [chunk_of two_paragraphs 0 2; chunk_of two_paragraphs 3 4] /\
  map text [chunk_of two_paragraphs 0 2; chunk_of two_paragraphs 3 4] =
    [["a"; newline]; ["b"]]%char /\
  concat (map text [chunk_of two_paragraphs 0 2; chunk_of two_paragraphs 3 4]) <> two_paragraphs /\
  (forall ov, reconstruct ov [chunk_of two_paragraphs 0 2; chunk_of two_paragraphs 3 4]
                <> two_paragraphs).
Proof.
  split; [vm_compute; reflexivity|]. split; [vm_compute; reflexivity|].
  split; [vm_compute; discriminate|].
  intros ov H. apply (f_equal (@length ascii)) in H. revert H.
  change (reconstruct ov [chunk_of two_paragraphs 0 2; chunk_of two_paragraphs 3 4])
    with (["a"; newline]%char ++ (skipn (Z.to_nat ov) ["b"%char] ++ [])).
  rewrite !length_app, length_skipn. simpl. lia.
Qed.

(** C7: in paragraph mode with [chunkSize > 0], no chunk of
    [splitIntoChunks] starts or ends strictly inside a paragraph (between
    two characters that both lie on non-blank lines), and a paragraph longer
    than [chunkSize] is one chunk of its own: the chunk with exactly its
    offsets is produced, and every other chunk ends before it or starts after
    it. *)
Theorem paragraph_chunks_respect_paragraphs (st : Settings) (content : list ascii)
    (chunks : list TextChunk) :
  chunkingStrategy st = Paragraph -> 0 < chunkSize st ->
  splitIntoChunks st content = Some chunks ->
  (forall c, In c chunks ->
     ~ inside_paragraph content (startOffset c) /\ ~ inside_paragraph content (endOffset c)) /\
  (forall p, In p (paragraphs_of content) -> chunkSize st < p.2 - p.1 ->
     In (chunk_of content p.1 p.2) chunks /\
     forall c, In c chunks ->
       c = chunk_of content p.1 p.2 \/ endOffset c < p.1 \/ p.2 < startOffset c).
Proof.
  intros Hstrat Hcs H. unfold splitIntoChunks in H.
  destruct (chunkSize st =? 0) eqn:E0; [apply Z.eqb_eq in E0; lia|].
  rewrite Hstrat in H. injection H as <-.
  destruct (paragraphs_layout content) as [Hin Hsort].
  assert (Hss : StronglySorted (fun a b => a.2 < b.1) (paragraphs_of content))
    by (apply chain_strongly_sorted; [exact Hsort|];
        intros p Hp; destruct (Hin p Hp) as (_ & ? & _); assumption).
  split.
  - intros c Hc.
    destruct (merge_origin content (chunkSize st) _ _ _ _ _ Hc)
      as ([[Hm _]|[p [Hp Hs]]] & [[Hm' _]|[q [Hq He]]] & _);
      try (exfalso; apply Hm; reflexivity); try (exfalso; apply Hm'; reflexivity).
    rewrite Hs, He.
    split; [apply (paragraphs_boundaries content p Hp)|apply (paragraphs_boundaries content q Hq)].
  - intros p Hp Hbig.
    assert (Hk : In (chunk_of content p.1 p.2)
                   (merge_paragraphs content (chunkSize st) (paragraphs_of content) (-1) (-1) 0)).
    { apply merge_oversized; try assumption; [| |left; reflexivity].
      - intros q Hq. destruct (Hin q Hq) as (? & ? & ? & _). repeat split; assumption.
      - intros q Hq. destruct (Hin q Hq) as (_ & _ & _ & ?). assumption. }
    split; [exact Hk|]. intros c Hc.
    destruct (paragraph_chunks_layout content (chunkSize st)) as [Hb Hs].
    destruct (strongly_sorted_trichotomy _ _ c _ (chunk_layout_strict _ _ Hb Hs) Hc Hk)
      as [Heq|[Hlt|Hgt]]; [left; exact Heq|right; left; exact Hlt|right; right; exact Hgt].
Qed.

Lemma paragraph_chunks_respect_paragraphs_witness :
  (forall c, In c [chunk_of two_paragraphs 0 2; chunk_of two_paragraphs 3 4] ->
     ~ inside_paragraph two_paragraphs (startOffset c) /\
     ~ inside_paragraph two_paragraphs (endOffset c)) /\
  (forall p, In p (paragraphs_of two_paragraphs) -> 1 < p.2 - p.1 ->
     In (chunk_of two_paragraphs p.1 p.2) [chunk_of two_paragraphs 0 2; chunk_of two_paragraphs 3 4] /\
     forall c, In c [chunk_of two_paragraphs 0 2; chunk_of two_paragraphs 3 4] ->
       c = chunk_of two_paragraphs p.1 p.2 \/ endOffset c < p.1 \/ p.2 < startOffset c).
Proof.
  apply (paragraph_chunks_respect_paragraphs (sample_settings Paragraph 1 0) two_paragraphs
           [chunk_of two_paragraphs 0 2; chunk_of two_paragraphs 3 4]);
    [reflexivity | reflexivity | vm_compute; reflexivity].
Defined.

(** ** Keys *)

Lemma z_to_string_inj (a b : Z) : z_to_string a = z_to_string b -> a = b.
Proof.
  intros H.
  assert (Hn : forall z, Z.to_int z <> Decimal.Pos Decimal.Nil /\ Z.to_int z <> Decimal.Neg Decimal.Nil).
  { intros z. split; intros E; pose proof (DecimalZ.of_to z) as F; rewrite E in F;
      simpl in F; subst z; vm_compute in E; discriminate E. }
  apply (f_equal NilZero.int_of_string) in H. unfold z_to_string in H.
  rewrite !NilZero.isi in H by apply Hn. injection H as H.
  rewrite <- (DecimalZ.of_to a), <- (DecimalZ.of_to b), H. reflexivity.
Qed.

Lemma string_app_inv_l (p s1 s2 : string) : (p +:+ s1)%string = (p +:+ s2)%string -> s1 = s2.
Proof. induction p as [|c p IH]; simpl; intros H; [exact H|injection H; exact IH]. Qed.

Lemma vkey_inj_index (p : string) (i j : Z) : vkey p i = vkey p j -> i = j.
Proof.
  unfold vkey. intros H. apply string_app_inv_l in H. simpl in H. injection H as H.
  apply z_to_string_inj, H.
Qed.

(** ** The per-chunk records *)

Lemma chunk_record_Some (env : Env) (file : TFile) (content : list ascii) (n i : nat)
    (c : TextChunk) (vd : VectorData) :
  chunk_record env file content n i c = Some vd ->
  path vd = normalizePath env (file_path file) /\ chunkIndex vd = Z.of_nat i /\
  embedding vd = getEmbedding env (text c) /\ getEmbedding env (text c) <> [].
Proof.
  unfold chunk_record. destruct (Nat.eqb (length (getEmbedding env (text c))) 0) eqn:E;
    [discriminate|]. intros H. injection H as <-. simpl.
  repeat split; auto. intros He. rewrite He in E. discriminate.
Qed.


Lemma process_chunks_records_for (env : Env) (file : TFile) (content : list ascii) (n : nat)
    (chunks : list TextChunk) : forall i m,
  records_for env (file_path file) (process_chunks env file content n i chunks m) =
  process_chunks env file content n i chunks (records_for env (file_path file) m).
Proof.
  induction chunks as [|c rest IH]; intros i m; simpl; [reflexivity|].
  destruct (chunk_record env file content n i c) as [vd|] eqn:Ec; [|apply IH].
  rewrite IH. f_equal. unfold records_for, store_record.
  apply map_filter_insert_True. simpl. apply (chunk_record_Some _ _ _ _ _ _ _ Ec).
Qed.

Lemma records_for_removed (env : Env) (filePath : string) (m : VectorStore) :
  records_for env filePath (removeFileVectors env filePath m) = ∅.
Proof.
  apply map_eq. intros k. rewrite lookup_empty.
  apply map_lookup_filter_None_2. right. intros x Hx Hp.
  apply map_lookup_filter_Some in Hx as [_ Hn]. exact (Hn Hp).
Qed.

Lemma process_chunks_size (env : Env) (file : TFile) (content : list ascii) (n : nat)
    (chunks : list TextChunk) : forall i m,
  (forall c, In c chunks -> getEmbedding env (text c) <> []) ->
  (forall j, (i <= j)%nat -> m !! vkey (normalizePath env (file_path file)) (Z.of_nat j) = None) ->
  size (process_chunks env file content n i chunks m) = (size m + length chunks)%nat.
Proof.
  induction chunks as [|c rest IH]; intros i m Hemb Hfree; simpl; [lia|].
  destruct (chunk_record env file content n i c) as [vd|] eqn:Ec.
  - destruct (chunk_record_Some _ _ _ _ _ _ _ Ec) as (Hp & Hi & _).
    rewrite IH.
    + unfold store_record. rewrite map_size_insert_None; [lia|].
      rewrite Hp, Hi. apply Hfree. lia.
    + intros c' Hc'. apply Hemb. right. exact Hc'.
    + intros j Hj. unfold store_record. rewrite Hp, Hi.
      rewrite lookup_insert_ne; [apply Hfree; lia|].
      intros He. apply vkey_inj_index in He. lia.
  - exfalso. unfold chunk_record in Ec.
    destruct (Nat.eqb (length (getEmbedding env (text c))) 0) eqn:E; [|discriminate].
    apply (Hemb c (or_introl eq_refl)). apply Nat.eqb_eq, length_zero_iff_nil in E. exact E.
Qed.

(** What [processFile] leaves behind when the service is ready and the
    split returns. *)
Lemma processFile_ready (env : Env) (file : TFile) (st st' : PluginState)
    (chunks : list TextChunk) :
  fst (ensureRequirements env false st) = true ->
  splitIntoChunks (settings st) (file_content file) = Some chunks ->
  processFile env file st = Some st' ->
  vectorStore st' = process_chunks env file (file_content file) (length chunks) 0 chunks
                      (removeFileVectors env (file_path file) (vectorStore st)) /\
  vectorFile st' = Some (ParsedArray (map (fun kv => JRecord (to_raw kv.2)) (map_to_list (vectorStore st')))).
Proof.
  intros Hready Hsplit H. unfold processFile in H.
  destruct (ensureRequirements env false st) as [r st1] eqn:Er. simpl in Hready. subst r.
  assert (Hst : vectorStore st1 = vectorStore st /\ settings st1 = settings st)
    by (destruct (ensureRequirements_state _ _ _ _ _ Er) as [->| ->]; auto).
  destruct Hst as [Hs1 Hs2]. simpl in H. rewrite Hs2, Hsplit in H.
  injection H as <-. simpl. rewrite Hs1. split; reflexivity.
Qed.

(** C1: when the service is ready and the split returns, the records of the
    note's normalized path after [processFile] are exactly the records
    produced for its new chunks (as if they were stored in an empty map):
    none of the earlier records of that path survives. When every embedding
    call succeeds there is one record per chunk. *)
Theorem processFile_replaces_records (env : Env) (file : TFile) (st st' : PluginState)
    (chunks : list TextChunk) :
  fst (ensureRequirements env false st) = true ->
  splitIntoChunks (settings st) (file_content file) = Some chunks ->
  processFile env file st = Some st' ->
  records_for env (file_path file) (vectorStore st') = fresh_records env file chunks /\
  ((forall c, In c chunks -> getEmbedding env (text c) <> []) ->
     size (records_for env (file_path file) (vectorStore st')) = length chunks).
Proof.
  intros Hready Hsplit H.
  destruct (processFile_ready env file st st' chunks Hready Hsplit H) as [Hm _].
  rewrite Hm, process_chunks_records_for, records_for_removed.
  split; [reflexivity|]. intros Hemb.
  rewrite process_chunks_size; [rewrite map_size_empty; reflexivity|exact Hemb|].
  intros j _. apply lookup_empty.
Qed.

(** The scenario of the specification: ["note.md"] had five records and is
    re-indexed into three chunks, every embedding call succeeding. *)
Lemma processFile_replaces_records_witness :
  size (records_for (sample_env (fun _ => [1%R])) "note.md"
          (vectorStore (sample_state (sample_settings Paragraph 1 0) five_chunk_store))) = 5%nat /\
  size (records_for (sample_env (fun _ => [1%R])) "note.md"
          (vectorStore (reindexed (sample_env (fun _ => [1%R]))
             (sample_state (sample_settings Paragraph 1 0) five_chunk_store)))) = 3%nat.
Proof.
  split; [vm_compute; reflexivity|].
  refine (proj2 (processFile_replaces_records (sample_env (fun _ => [1%R])) note_file
     (sample_state (sample_settings Paragraph 1 0) five_chunk_store)
     (reindexed (sample_env (fun _ => [1%R]))
        (sample_state (sample_settings Paragraph 1 0) five_chunk_store))
     [chunk_of three_paragraphs 0 6; chunk_of three_paragraphs 7 14;
      chunk_of three_paragraphs 15 20] _ _ _) _).
  - reflexivity.
  - vm_compute. reflexivity.
  - vm_compute. reflexivity.
  - intros c _. simpl. discriminate.
Defined.





(** ** Loading the persisted store *)

Lemma build_map_from_None (vs : list JsonElement) : forall index m,
  build_map_from vs index m = None <-> In JNull vs.
Proof.
  induction vs as [|[|v] rest IH]; intros index m; simpl.
  - split; [discriminate|contradiction].
  - split; [intros _; left; reflexivity|reflexivity].
  - rewrite IH. split; [intros H; right; exact H|intros [H|H]; [discriminate|exact H]].
Qed.



(** ** Canceling a rebuild *)

Lemma build_chunks_complete (env : Env) (cancel : nat -> bool) (file : TFile)
    (content : list ascii) (n : nat) (chunks : list TextChunk) : forall i k m k' m',
  build_chunks env cancel file content n i chunks k m = (false, k', m') ->
  k' = (k + length chunks)%nat /\ forall j, (k <= j < k')%nat -> cancel j = false.
Proof.
  induction chunks as [|c rest IH]; intros i k m k' m' H; simpl in H.
  - injection H as <- _. simpl. split; [lia|intros j Hj; lia].
  - destruct (cancel k) eqn:Ek; [discriminate|].
    destruct (chunk_record env file content n i c);
      destruct (IH _ _ _ _ _ H) as [Hk Hj]; simpl; (split; [lia|]);
      intros j Hjr; (destruct (Nat.eq_dec j k) as [->|Hne]; [exact Ek|apply Hj; lia]).
Qed.

Lemma build_files_complete (env : Env) (cancel : nat -> bool) (s : Settings)
    (files : list TFile) : forall n k m,
  run_checks s files = Some n ->
  exists b k' m', build_files env cancel s files k m = Some (b, k', m') /\
    (b = false -> k' = (k + n)%nat /\ forall j, (k <= j < k + n)%nat -> cancel j = false).
Proof.
  induction files as [|f fs IH]; intros n k m Hn; simpl in Hn |- *.
  - injection Hn as <-. exists false, k, m. split; [reflexivity|].
    intros _. split; [lia|intros j Hj; lia].
  - destruct (splitIntoChunks s (file_content f)) as [chunks|] eqn:Es; [|discriminate].
    destruct (run_checks s fs) as [n'|] eqn:Er; [|discriminate].
    injection Hn as <-.
    destruct (cancel k) eqn:Ek.
    { exists true, (S k), m. split; [reflexivity|discriminate]. }
    destruct (build_chunks env cancel f (file_content f) (length chunks) 0 chunks (S k) m)
      as [[[|] k1] m1] eqn:Eb.
    { exists true, k1, m1. split; [reflexivity|discriminate]. }
    destruct (build_chunks_complete _ _ _ _ _ _ _ _ _ _ _ Eb) as [Hk1 Hc1].
    destruct (IH n' k1 m1 eq_refl) as (b & k' & m' & Hb & Hdone).
    exists b, k', m'. split; [exact Hb|]. intros ->.
    destruct (Hdone eq_refl) as [Hk' Hc']. split; [lia|].
    intros j Hj.
    destruct (Nat.eq_dec j k) as [->|Hne]; [exact Ek|].
    destruct (Nat.lt_ge_cases j k1); [apply Hc1; lia|apply Hc'; lia].
Qed.

Lemma load_same_files (st0 st : PluginState) :
  vectorFile st0 = vectorFile st -> settings st0 = settings st -> dataFile st0 = dataFile st ->
  loadVectorStore_throws st0 = loadVectorStore_throws st /\
  vectorFile (set_flags (fst (loadVectorStore st0)) false true) = vectorFile (fst (loadVectorStore st)) /\
  dataFile (set_flags (fst (loadVectorStore st0)) false true) = dataFile (fst (loadVectorStore st)) /\
  (loadVectorStore_throws st = false ->
     vectorStore (set_flags (fst (loadVectorStore st0)) false true) =
       vectorStore (fst (loadVectorStore st))) /\
  (loadVectorStore_throws st = true ->
     vectorStore (set_flags (fst (loadVectorStore st0)) false true) = vectorStore st0).
Proof.
  destruct st0 as [m0 s0 f0 d0 r0 i0 c0], st as [m s f d r i c]; simpl.
  intros -> -> ->. unfold loadVectorStore_throws, loadVectorStore, load_source; simpl.
  destruct f as [[| |vs]|]; simpl.
  - repeat split; intros; (reflexivity || discriminate).
  - repeat split; intros; (reflexivity || discriminate).
  - destruct (build_map vs); simpl; repeat split; intros; (reflexivity || discriminate).
  - destruct (vectors s) as [|v vs]; simpl;
      [repeat split; intros; (reflexivity || discriminate)|].
    destruct (build_map (v :: vs)); destruct (Nat.eqb (lastIndexCount s) 0); simpl;
      repeat split; intros; (reflexivity || discriminate).
Qed.

Lemma load_keeps_files (st : PluginState) :
  vectorFile st <> None \/ vectors (settings st) = [] ->
  vectorFile (fst (loadVectorStore st)) = vectorFile st /\
  dataFile (fst (loadVectorStore st)) = dataFile st.
Proof.
  destruct st as [m s f d r i c]; simpl. unfold loadVectorStore, load_source; simpl.
  intros Hcase. destruct f as [[| |vs]|]; simpl; [auto|auto| |].
  - destruct (build_map vs); simpl; auto.
  - destruct Hcase as [Hc|Hc]; [contradiction|]. rewrite Hc. simpl. auto.
Qed.

(** C2 (as the code has it): a rebuild that ends canceled leaves the store
    that [loadVectorStore] reads from the files as they were before the
    rebuild, and the files as that load leaves them: the partial map is
    dropped, and nothing was written before the reload. The files are
    unchanged when [vectors.json] exists or the settings hold no legacy
    records; otherwise the reload migrates them. When that reload throws (a
    [null] element in the array it maps), the partial map stays in memory.
    The flag is read before each note and before each chunk; once it is read
    as set, the rebuild ends in one of these two ways. *)
Theorem buildVectorIndex_cancel_restores (env : Env) (cancel : nat -> bool)
    (files : list TFile) (st : PluginState) :
  (forall st', buildVectorIndex env cancel files st = Some (BuildCanceled, st') ->
     loadVectorStore_throws st = false /\
     vectorStore st' = vectorStore (fst (loadVectorStore st)) /\
     vectorFile st' = vectorFile (fst (loadVectorStore st)) /\
     dataFile st' = dataFile (fst (loadVectorStore st)) /\
     (vectorFile st <> None \/ vectors (settings st) = [] ->
        vectorFile st' = vectorFile st /\ dataFile st' = dataFile st)) /\
  (forall st', buildVectorIndex env cancel files st = Some (BuildThrew, st') ->
     loadVectorStore_throws st = true /\
     exists k m, build_files env cancel (settings st) files 0 ∅ = Some (true, k, m) /\
                 vectorStore st' = m) /\
  (forall n j, fst (ensureRequirements env true st) = true -> isIndexing st = false ->
     run_checks (settings st) files = Some n -> (j < n)%nat -> cancel j = true ->
     exists st', buildVectorIndex env cancel files st =
       Some (if loadVectorStore_throws st then BuildThrew else BuildCanceled, st')).
Proof.
  unfold buildVectorIndex.
  destruct (ensureRequirements env true st) as [r st1] eqn:Er.
  assert (Hst : vectorFile st1 = vectorFile st /\ dataFile st1 = dataFile st /\
                settings st1 = settings st /\ isIndexing st1 = isIndexing st)
    by (destruct (ensureRequirements_state _ _ _ _ _ Er) as [->| ->]; auto).
  destruct Hst as (Hf & Hd & Hs & Hi).
  split; [|split].
  - intros st' H. destruct r; simpl in H; [|discriminate].
    destruct (isIndexing st1); [discriminate|].
    destruct (build_files env cancel (settings st1) files 0 ∅) as [[[[|] k] m]|];
      [|discriminate|discriminate].
    destruct (load_same_files (set_store (set_store (set_flags st1 true false) ∅) m) st)
      as (Et & E2 & E3 & E4 & _); [exact Hf|exact Hs|exact Hd|].
    destruct (loadVectorStore_throws (set_store (set_store (set_flags st1 true false) ∅) m));
      [discriminate|].
    injection H as <-.
    assert (Ht : loadVectorStore_throws st = false) by (rewrite <- Et; reflexivity).
    split; [exact Ht|split; [exact (E4 Ht)|split; [exact E2|split; [exact E3|]]]].
    intros Hcase. rewrite E2, E3. apply load_keeps_files, Hcase.
  - intros st' H. destruct r; simpl in H; [|discriminate].
    destruct (isIndexing st1); [discriminate|].
    simpl in H. rewrite Hs in H.
    destruct (build_files env cancel (settings st) files 0 ∅) as [[[[|] k] m]|];
      [|discriminate|discriminate].
    destruct (load_same_files (set_store (set_store (set_flags st1 true false) ∅) m) st)
      as (Et & _ & _ & _ & E5); [exact Hf|exact Hs|exact Hd|].
    destruct (loadVectorStore_throws (set_store (set_store (set_flags st1 true false) ∅) m));
      [|discriminate].
    injection H as <-.
    assert (Ht : loadVectorStore_throws st = true) by (rewrite <- Et; reflexivity).
    split; [exact Ht|]. exists k, m. split; [reflexivity|]. rewrite (E5 Ht). reflexivity.
  - intros n j Hready Hidle Hn Hj Hc. simpl in Hready. subst r. simpl.
    rewrite Hi, Hidle. simpl. rewrite Hs.
    destruct (build_files_complete env cancel (settings st) files n 0 ∅ Hn)
      as (b & k' & m' & Hb & Hdone).
    rewrite Hb. destruct b.
    + destruct (load_same_files (set_store (set_store (set_flags st1 true false) ∅) m') st)
        as (Et & _); [exact Hf|exact Hs|exact Hd|].
      rewrite Et. destruct (loadVectorStore_throws st); eexists; reflexivity.
    + destruct (Hdone eq_refl) as [_ Hall]. rewrite (Hall j ltac:(lia)) in Hc. discriminate.
Qed.

(** A rebuild over [note_file] (three chunks) whose flag is set from the
    fourth check on, before the third chunk, ends canceled with the six
    records of [vectors.json] in memory, not the two chunks stored before. *)
Lemma buildVectorIndex_cancel_restores_witness :
  exists st', buildVectorIndex (sample_env (fun _ => [1%R])) (fun k => Nat.leb 3 k)
                [note_file] startup_state = Some (BuildCanceled, st') /\
              vectorStore st' = vectorStore (fst (loadVectorStore startup_state)) /\
              vectorStore st' = five_chunk_store.
Proof.
  destruct (proj2 (proj2 (buildVectorIndex_cancel_restores (sample_env (fun _ => [1%R]))
                     (fun k => Nat.leb 3 k) [note_file] startup_state))
              4%nat 3%nat eq_refl eq_refl eq_refl ltac:(lia) eq_refl) as [st' H].
  assert (E : loadVectorStore_throws startup_state = false) by reflexivity.
  rewrite E in H.
  destruct (proj1 (buildVectorIndex_cancel_restores (sample_env (fun _ => [1%R]))
                     (fun k => Nat.leb 3 k) [note_file] startup_state) st' H)
    as (_ & Hst & _).
  exists st'. split; [exact H|]. split; [exact Hst|].
  rewrite Hst. vm_compute. reflexivity.
Defined.

(** C2 fails twice. A rebuild canceled while [vectors.json] is absent and the
    settings still hold a legacy record writes [vectors.json] and [data.json]
    during the reload. A rebuild canceled before the third chunk of
    [note_file], while [vectors.json] holds [[null]], ends with the reload
    throwing and the two chunks already embedded left in memory. *)
Lemma cancel_migrates_and_keeps_partial :
  (exists st', buildVectorIndex (sample_env (fun _ => [1%R])) (fun _ => true)
                 [note_file] legacy_state = Some (BuildCanceled, st') /\
               vectorFile legacy_state = None /\
               vectorFile st' = Some (ParsedArray [sample_raw "note.md" 0]) /\
               dataFile legacy_state = None /\ dataFile st' <> None) /\
  (exists st', buildVectorIndex (sample_env (fun _ => [1%R])) (fun k => Nat.leb 3 k)
                 [note_file] null_file_state = Some (BuildThrew, st') /\
               size (vectorStore st') = 2%nat /\
               vectorStore null_file_state = ∅).
Proof.
  split.
  - eexists. split; [vm_compute; reflexivity|].
    split; [reflexivity|]. split; [vm_compute; reflexivity|].
    split; [reflexivity|]. vm_compute. discriminate.
  - eexists. split; [vm_compute; reflexivity|].
    split; [vm_compute; reflexivity|]. reflexivity.
Qed.

(** ** Keys of the store *)

Lemma keys_consistent_empty : keys_consistent ∅.
Proof. intros k v H. rewrite lookup_empty in H. discriminate. Qed.

Lemma keys_consistent_store_record (vd : VectorData) (m : VectorStore) :
  keys_consistent m -> keys_consistent (store_record vd m).
Proof.
  intros Hm k v H. unfold store_record in H.
  destruct (decide (vkey (path vd) (chunkIndex vd) = k)) as [<-|Hne].
  - rewrite lookup_insert_eq in H. injection H as <-. reflexivity.
  - rewrite lookup_insert_ne in H by exact Hne. apply Hm, H.
Qed.

Lemma keys_consistent_filter (P : string * VectorData -> Prop) `{!forall x, Decision (P x)}
    (m : VectorStore) :
  keys_consistent m -> keys_consistent (filter P m).
Proof. intros Hm k v Hl. apply map_lookup_filter_Some in Hl as [Hl _]. apply Hm, Hl. Qed.

Lemma keys_consistent_build_map_from (vs : list JsonElement) : forall index m m',
  keys_consistent m -> build_map_from vs index m = Some m' -> keys_consistent m'.
Proof.
  induction vs as [|[|v] rest IH]; intros index m m' Hm H; simpl in H;
    [injection H as <-; exact Hm|discriminate|].
  refine (IH _ _ _ _ H). intros k w Hl.
  destruct (decide (vkey (rpath v) (match rchunkIndex v with Some z => z | None => Z.of_nat index end) = k))
    as [<-|Hne].
  - rewrite lookup_insert_eq in Hl. injection Hl as <-. reflexivity.
  - rewrite lookup_insert_ne in Hl by exact Hne. apply Hm, Hl.
Qed.

Lemma load_source_store (st : PluginState) :
  vectorStore (snd (fst (load_source st))) = vectorStore st.
Proof.
  destruct st as [m s f d r i c]. unfold load_source; simpl.
  destruct f as [[| |vs]|]; simpl; try reflexivity.
  destruct (vectors s); simpl; [reflexivity|].
  destruct (Nat.eqb (lastIndexCount s) 0); reflexivity.
Qed.

Lemma keys_consistent_load (st : PluginState) :
  keys_consistent (vectorStore st) ->
  keys_consistent (vectorStore (fst (loadVectorStore st))).
Proof.
  intros Hm. pose proof (load_source_store st) as Hs.
  unfold loadVectorStore.
  destruct (load_source st) as [[vs st1] logs]. simpl in Hs.
  destruct (build_map vs) as [m|] eqn:Eb; simpl.
  - exact (keys_consistent_build_map_from vs 0 ∅ m keys_consistent_empty Eb).
  - rewrite Hs. exact Hm.
Qed.

Lemma keys_consistent_process_chunks (env : Env) (file : TFile) (content : list ascii)
    (n : nat) (chunks : list TextChunk) : forall i m,
  keys_consistent m -> keys_consistent (process_chunks env file content n i chunks m).
Proof.
  induction chunks as [|c rest IH]; intros i m Hm; simpl; [exact Hm|].
  destruct (chunk_record env file content n i c); apply IH;
    [apply keys_consistent_store_record|]; exact Hm.
Qed.

Lemma keys_consistent_build_chunks (env : Env) (cancel : nat -> bool) (file : TFile)
    (content : list ascii) (n : nat) (chunks : list TextChunk) : forall i k m b k' m',
  keys_consistent m ->
  build_chunks env cancel file content n i chunks k m = (b, k', m') -> keys_consistent m'.
Proof.
  induction chunks as [|c rest IH]; intros i k m b k' m' Hm H; simpl in H.
  - injection H as _ _ <-. exact Hm.
  - destruct (cancel k); [injection H as _ _ <-; exact Hm|].
    destruct (chunk_record env file content n i c); (eapply IH; [|exact H]);
      [apply keys_consistent_store_record|]; exact Hm.
Qed.

Lemma keys_consistent_build_files (env : Env) (cancel : nat -> bool) (s : Settings)
    (files : list TFile) : forall k m b k' m',
  keys_consistent m ->
  build_files env cancel s files k m = Some (b, k', m') -> keys_consistent m'.
Proof.
  induction files as [|f fs IH]; intros k m b k' m' Hm H; simpl in H.
  - injection H as _ _ <-. exact Hm.
  - destruct (cancel k); [injection H as _ _ <-; exact Hm|].
    destruct (splitIntoChunks s (file_content f)) as [chunks|]; [|discriminate].
    destruct (build_chunks env cancel f (file_content f) (length chunks) 0 chunks (S k) m)
      as [[b1 k1] m1] eqn:Eb.
    pose proof (keys_consistent_build_chunks _ _ _ _ _ _ _ _ _ _ _ _ Hm Eb) as Hm1.
    destruct b1; [injection H as _ _ <-; exact Hm1|].
    exact (IH _ _ _ _ _ Hm1 H).
Qed.

Lemma keys_consistent_processFile (env : Env) (file : TFile) (st st' : PluginState) :
  keys_consistent (vectorStore st) -> processFile env file st = Some st' ->
  keys_consistent (vectorStore st').
Proof.
  intros Hm H. unfold processFile in H.
  destruct (ensureRequirements env false st) as [r st1] eqn:Er.
  assert (Hs : vectorStore st1 = vectorStore st)
    by (destruct (ensureRequirements_state _ _ _ _ _ Er) as [->| ->]; auto).
  destruct r; simpl in H.
  - destruct (splitIntoChunks (settings st1) (file_content file)); [|discriminate].
    injection H as <-. simpl.
    apply keys_consistent_process_chunks. unfold removeFileVectors.
    apply keys_consistent_filter. rewrite Hs. exact Hm.
  - injection H as <-. rewrite Hs. exact Hm.
Qed.

Lemma keys_consistent_buildVectorIndex (env : Env) (cancel : nat -> bool) (files : list TFile)
    (st st' : PluginState) (o : BuildOutcome) :
  keys_consistent (vectorStore st) -> buildVectorIndex env cancel files st = Some (o, st') ->
  keys_consistent (vectorStore st').
Proof.
  intros Hm H. unfold buildVectorIndex in H.
  destruct (ensureRequirements env true st) as [r st1] eqn:Er.
  assert (Hs : vectorStore st1 = vectorStore st)
    by (destruct (ensureRequirements_state _ _ _ _ _ Er) as [->| ->]; auto).
  destruct r; simpl in H; [|injection H as _ <-; rewrite Hs; exact Hm].
  destruct (isIndexing st1); [injection H as _ <-; rewrite Hs; exact Hm|].
  destruct (build_files env cancel (settings st1) files 0 ∅) as [[[b k] m]|] eqn:Eb;
    [|discriminate].
  pose proof (keys_consistent_build_files _ _ _ _ _ _ _ _ _ keys_consistent_empty Eb) as Hm'.
  destruct b.
  - destruct (loadVectorStore_throws (set_store (set_store (set_flags st1 true false) ∅) m));
      injection H as _ <-; apply keys_consistent_load; exact Hm'.
  - injection H as _ <-. exact Hm'.
Qed.

(** C9: in every reachable state each entry's key is the value's path, ['#']
    and the value's chunk index; so two entries with the same path and chunk
    index are the same entry. *)
Theorem reachable_keys_consistent (st : PluginState) :
  reachable st ->
  (forall k v, vectorStore st !! k = Some v -> k = vkey (path v) (chunkIndex v)) /\
  (forall k1 k2 v1 v2, vectorStore st !! k1 = Some v1 -> vectorStore st !! k2 = Some v2 ->
     path v1 = path v2 -> chunkIndex v1 = chunkIndex v2 -> k1 = k2 /\ v1 = v2).
Proof.
  intros Hr.
  assert (Hk : keys_consistent (vectorStore st)).
  { induction Hr as [st He|st _ IH|env file st st' _ IH H|env cancel files st o st' _ IH H
                    |env filePath st _ IH|st _ IH|st st' _ IH He].
    - rewrite He. apply keys_consistent_empty.
    - apply keys_consistent_load, IH.
    - exact (keys_consistent_processFile _ _ _ _ IH H).
    - exact (keys_consistent_buildVectorIndex _ _ _ _ _ _ IH H).
    - simpl. unfold removeFileVectors. apply keys_consistent_filter, IH.
    - simpl. apply keys_consistent_empty.
    - rewrite He. exact IH. }
  split; [exact Hk|].
  intros k1 k2 v1 v2 H1 H2 Hp Hc.
  assert (k1 = k2) as <- by (rewrite (Hk _ _ H1), (Hk _ _ H2), Hp, Hc; reflexivity).
  split; [reflexivity|congruence].
Qed.

Lemma reachable_keys_consistent_witness :
  (forall k v, vectorStore (reindexed (sample_env (fun _ => [1%R]))
                  (fst (loadVectorStore startup_state))) !! k = Some v ->
     k = vkey (path v) (chunkIndex v)) /\
  (forall k1 k2 v1 v2,
     vectorStore (reindexed (sample_env (fun _ => [1%R]))
       (fst (loadVectorStore startup_state))) !! k1 = Some v1 ->
     vectorStore (reindexed (sample_env (fun _ => [1%R]))
       (fst (loadVectorStore startup_state))) !! k2 = Some v2 ->
     path v1 = path v2 -> chunkIndex v1 = chunkIndex v2 -> k1 = k2 /\ v1 = v2).
Proof.
  apply reachable_keys_consistent.
  apply (reach_process (sample_env (fun _ => [1%R])) note_file
           (fst (loadVectorStore startup_state))).
  - apply reach_load, reach_empty. reflexivity.
  - vm_compute. reflexivity.
Defined.

(** * Further properties of the code *)

(** ** Cosine similarity: symmetry *)

Section CosineMore.
Open Scope R_scope.

Lemma dot_comm (a b : list R) : dot a b = dot b a.
Proof.
  revert b. induction a as [|x xs IH]; intros [|y ys]; unfold dot; simpl; try reflexivity.
  fold (dot xs ys). fold (dot ys xs). rewrite IH. ring.
Qed.

(** X1: [cosineSimilarity] is symmetric: each guard of the source treats
    its two arguments alike, and the dot product commutes. *)
Theorem cosineSimilarity_sym (a b : list R) :
  cosineSimilarity a b = cosineSimilarity b a.
Proof.
  rewrite !cosineSimilarity_unfold, (Nat.eqb_sym (length b) (length a)).
  destruct (Nat.eqb (length a) 0), (Nat.eqb (length b) 0); simpl; try reflexivity.
  destruct (Nat.eqb (length a) (length b)); simpl; [|reflexivity].
  destruct (Req_EM_T (norm a) 0), (Req_EM_T (norm b) 0); try reflexivity.
  rewrite dot_comm, Rmult_comm. reflexivity.
Qed.

End CosineMore.

(** ** Ordering of search results *)

Section Stability.
Open Scope R_scope.

Lemma insert_by_score_same (c : R) (x : SearchResult) (l : list SearchResult) :
  List.filter (same_score c) (insert_by_score x l) = List.filter (same_score c) (x :: l).
Proof.
  induction l as [|y ys IH]; simpl; [reflexivity|].
  destruct (Rle_dec (y.2 - x.2) 0) as [|Hgt]; [reflexivity|].
  simpl. rewrite IH. simpl. unfold same_score.
  destruct (Req_EM_T y.2 c), (Req_EM_T x.2 c); try reflexivity. lra.
Qed.

(** X4: the sort is stable: the results of any one score keep the order
    in which the scoring loop produced them. *)
Theorem sort_by_score_stable (c : R) (l : list SearchResult) :
  List.filter (same_score c) (sort_by_score l) = List.filter (same_score c) l.
Proof.
  induction l as [|x xs IH]; simpl; [reflexivity|].
  rewrite insert_by_score_same. simpl. rewrite IH. reflexivity.
Qed.

End Stability.

(** ** Removing a note's records *)

(** X5: [removeFileVectors] keeps exactly the entries of other paths, is
    idempotent, and splits the store with [records_for]: the two parts'
    sizes add up to the store's. *)
Theorem removeFileVectors_spec (env : Env) (filePath : string) (m : VectorStore) :
  (forall k v, removeFileVectors env filePath m !! k = Some v <->
     m !! k = Some v /\ path v <> normalizePath env filePath) /\
  removeFileVectors env filePath (removeFileVectors env filePath m) =
    removeFileVectors env filePath m /\
  (size (removeFileVectors env filePath m) + size (records_for env filePath m) = size m)%nat.
Proof.
  split; [|split].
  - intros k v. unfold removeFileVectors. rewrite map_lookup_filter_Some. reflexivity.
  - unfold removeFileVectors. apply map_filter_id.
    intros k v Hk. apply map_lookup_filter_Some in Hk as [_ Hk]. exact Hk.
  - unfold removeFileVectors, records_for.
    assert (Hc : filter (fun kv : string * VectorData => (kv.2).(path) = normalizePath env filePath) m =
                 filter (fun kv : string * VectorData => ~ (kv.2).(path) <> normalizePath env filePath) m).
    { apply map_filter_ext. intros k v _. simpl.
      destruct (decide (path v = normalizePath env filePath)); tauto. }
    rewrite Hc, <- map_size_disj_union by apply map_disjoint_filter_complement.
    rewrite map_filter_union_complement. reflexivity.
Qed.

(** ** Saving and reloading the store *)

Lemma build_map_from_foldl (l : list (string * VectorData)) : forall index acc,
  List.Forall (fun kv : string * VectorData => kv.1 = vkey (path kv.2) (chunkIndex kv.2)) l ->
  build_map_from (map (fun kv => JRecord (to_raw kv.2)) l) index acc =
  Some (foldl (fun m kv => <[kv.1 := kv.2]> m) acc l).
Proof.
  induction l as [|[k v] l IH]; intros index acc Hl; simpl; [reflexivity|].
  inversion Hl as [|? ? Hk Hrest]; subst. simpl in Hk. rewrite IH by exact Hrest.
  f_equal. rewrite Hk. destruct v; reflexivity.
Qed.

Lemma foldl_insert_union (l : list (string * VectorData)) : forall acc : VectorStore,
  NoDup l.*1 -> foldl (fun m kv => <[kv.1 := kv.2]> m) acc l = list_to_map l ∪ acc.
Proof.
  induction l as [|[k v] l IH]; intros acc Hnd; simpl.
  - symmetry. apply (left_id_L ∅ (∪)).
  - apply NoDup_cons in Hnd as [Hk Hnd]. rewrite IH by exact Hnd.
    rewrite <- insert_union_r by (apply not_elem_of_list_to_map_1; exact Hk).
    apply insert_union_l.
Qed.

(** The array written by [saveVectorStore()] rebuilds the map it was taken
    from, when every key is the one [loadVectorStore] computes. *)
Lemma build_map_values (m : VectorStore) :
  keys_consistent m -> build_map (map (fun kv => JRecord (to_raw kv.2)) (map_to_list m)) = Some m.
Proof.
  intros Hm. unfold build_map.
  rewrite build_map_from_foldl, foldl_insert_union.
  - rewrite (right_id_L ∅ (∪)). f_equal. apply list_to_map_to_list.
  - apply NoDup_fst_map_to_list.
  - apply List.Forall_forall. intros [k v] Hin. simpl. apply Hm.
    apply elem_of_map_to_list, list_elem_of_In, Hin.
Qed.

(** X6: reloading what [saveVectorStore()] wrote gives back the store, and
    nothing is logged, when every key is [`${path}#${chunkIndex}`] (the case
    of every reachable state, C9). *)
Theorem save_load_roundtrip (st : PluginState) :
  keys_consistent (vectorStore st) ->
  vectorStore (fst (loadVectorStore (saveVectorStore st None))) = vectorStore st /\
  snd (loadVectorStore (saveVectorStore st None)) = [].
Proof.
  intros Hm. destruct st as [m s f d r i c]. simpl in *.
  unfold loadVectorStore, load_source, saveVectorStore. simpl.
  rewrite (build_map_values m Hm). split; reflexivity.
Qed.

Lemma save_load_roundtrip_witness :
  keys_consistent five_chunk_store /\
  vectorStore (fst (loadVectorStore
    (saveVectorStore (sample_state (sample_settings Paragraph 1 0) five_chunk_store) None))) =
    five_chunk_store /\
  snd (loadVectorStore
    (saveVectorStore (sample_state (sample_settings Paragraph 1 0) five_chunk_store) None)) = [].
Proof.
  assert (H : keys_consistent five_chunk_store).
  { unfold five_chunk_store.
    destruct (build_map _) as [m|] eqn:E; [|apply keys_consistent_empty].
    exact (keys_consistent_build_map_from _ 0 ∅ m keys_consistent_empty E). }
  split; [exact H|].
  apply (save_load_roundtrip (sample_state (sample_settings Paragraph 1 0) five_chunk_store)).
  exact H.
Defined.

Lemma build_map_from_app (l1 l2 : list JsonElement) : forall index m,
  build_map_from (l1 ++ l2) index m =
  match build_map_from l1 index m with
  | Some m1 => build_map_from l2 (index + length l1) m1
  | None => None
  end.
Proof.
  induction l1 as [|[|v] l1 IH]; intros index m; simpl.
  - rewrite Nat.add_0_r. reflexivity.
  - reflexivity.
  - rewrite IH. destruct (build_map_from l1 _ _); [|reflexivity]. f_equal. lia.
Qed.

(** X7: loading an array, each element goes under the key of its path and
    its [chunkIndex], or its position in the array when that is missing or
    not finite; an element overrides every earlier one with the same key.
    The map is built unless an earlier element is [null]. *)
Theorem build_map_last_wins (vs : list JsonElement) (v : RawVectorData) :
  let ci := match rchunkIndex v with Some z => z | None => zlen vs end in
  match build_map (vs ++ [JRecord v]) with
  | Some m => m !! vkey (rpath v) ci =
      Some (mkVectorData (rpath v) (rembedding v) (rtitle v) ci (rstartLine v) (rendLine v))
  | None => In JNull vs
  end.
Proof.
  simpl. unfold build_map. rewrite build_map_from_app.
  destruct (build_map_from vs 0 ∅) eqn:E.
  - simpl. unfold zlen. apply lookup_insert_eq.
  - apply (build_map_from_None vs 0 ∅), E.
Qed.

(** ** Restarting the plugin *)

(** X8: when [vectors.json] and [data.json] hold the store and the settings,
    a new plugin instance starts with the same store and settings, and logs
    nothing. *)
Theorem restart_restores (st : PluginState) :
  persisted st -> keys_consistent (vectorStore st) ->
  vectorStore (fst (restart st)) = vectorStore st /\
  settings (fst (restart st)) = settings st /\
  snd (restart st) = [].
Proof.
  intros [Hf Hd] Hm. unfold restart, loadSettings, loadVectorStore, load_source. simpl.
  rewrite Hd, Hf. simpl. rewrite (build_map_values _ Hm). split; [|split]; reflexivity.
Qed.

(** ** Vault events *)

(** X9: on a Markdown file, the [delete] handler leaves no record of the
    deleted path, keeps every other record, stamps the index statistics with
    the store's new size, and saves both files, so that a new instance
    restores this store; other files are ignored. *)
Theorem onDelete_effect (env : Env) (filePath : string) (st : PluginState) :
  onDelete env filePath false st = st /\
  records_for env filePath (vectorStore (onDelete env filePath true st)) = ∅ /\
  vectorStore (onDelete env filePath true st) = removeFileVectors env filePath (vectorStore st) /\
  lastIndexTime (settings (onDelete env filePath true st)) = Some (now env) /\
  lastIndexCount (settings (onDelete env filePath true st)) =
    size (vectorStore (onDelete env filePath true st)) /\
  persisted (onDelete env filePath true st).
Proof.
  destruct st as [m s f d r i c]. unfold onDelete. simpl.
  split; [reflexivity|]. split; [apply records_for_removed|].
  split; [reflexivity|]. split; [reflexivity|]. split; [reflexivity|].
  split; reflexivity.
Qed.

(** X10: the [rename] handler drops the old path's records from memory
    only: [vectors.json] and [data.json] are untouched, so a new instance
    started before the scheduled [processFile] runs gets the old records
    back. *)
Theorem onRename_unsaved (env : Env) (oldPath : string) (st : PluginState) :
  onRename env oldPath false st = st /\
  records_for env oldPath (vectorStore (onRename env oldPath true st)) = ∅ /\
  vectorFile (onRename env oldPath true st) = vectorFile st /\
  dataFile (onRename env oldPath true st) = dataFile st /\
  (persisted st -> keys_consistent (vectorStore st) ->
     vectorStore (fst (restart (onRename env oldPath true st))) = vectorStore st).
Proof.
  destruct st as [m s f d r i c]. unfold onRename. simpl.
  split; [reflexivity|]. split; [apply records_for_removed|].
  split; [reflexivity|]. split; [reflexivity|].
  intros [Hf Hd] Hm. simpl in *. unfold restart, loadSettings, loadVectorStore, load_source.
  simpl. rewrite Hd, Hf. simpl. rewrite (build_map_values _ Hm). reflexivity.
Qed.

(** ** Settings actions *)

(** X11: the "Clear index" button empties the store, deletes [vectors.json]
    and saves the statistics as never indexed; a new instance then finds no
    [vectors.json] and loads the legacy records the settings may still hold
    (when [vectors.json] exists, [loadVectorStore] never clears them); if
    they hold [null], that load throws and the new store stays empty. *)
Theorem onClearIndex_effect (st : PluginState) :
  vectorStore (onClearIndex st) = ∅ /\
  vectorFile (onClearIndex st) = None /\
  lastIndexTime (settings (onClearIndex st)) = None /\
  lastIndexCount (settings (onClearIndex st)) = 0%nat /\
  dataFile (onClearIndex st) = Some (settings (onClearIndex st)) /\
  vectorStore (fst (restart (onClearIndex st))) =
    match build_map (vectors (settings st)) with Some m1 => m1 | None => ∅ end.
Proof.
  destruct st as [m s f d r i c]. unfold onClearIndex. simpl.
  do 5 (split; [reflexivity|]).
  unfold restart, loadSettings, loadVectorStore, load_source. simpl.
  destruct (vectors s) as [|v vs]; [reflexivity|]. simpl.
  destruct (build_map (v :: vs)); reflexivity.
Qed.

(** X12: the migration of legacy records is stable: after a load that moved
    the settings' records to [vectors.json], a new instance loads the same
    store, finds no legacy record left and logs nothing. If the records hold
    [null], the first load throws after the migration, and so does the new
    instance's load, which leaves its store empty. *)
Theorem legacy_migration_stable (st : PluginState) :
  vectorFile st = None -> vectors (settings st) <> [] ->
  vectorStore (fst (restart (fst (loadVectorStore st)))) =
    (if loadVectorStore_throws st then ∅ else vectorStore (fst (loadVectorStore st))) /\
  vectors (settings (fst (restart (fst (loadVectorStore st))))) = [] /\
  snd (restart (fst (loadVectorStore st))) = [].
Proof.
  intros Hf Hv. destruct st as [m s f d r i c]. simpl in Hf, Hv. subst f.
  unfold restart, loadSettings, loadVectorStore_throws, loadVectorStore, load_source. simpl.
  destruct (vectors s) as [|v vs] eqn:E; [contradiction|]. simpl.
  destruct (build_map (v :: vs)) eqn:Eb; destruct (Nat.eqb (lastIndexCount s) 0); simpl;
    rewrite ?Eb; simpl; auto.
Qed.

Lemma legacy_migration_stable_witness :
  vectorStore (fst (restart (fst (loadVectorStore legacy_state)))) =
    (if loadVectorStore_throws legacy_state then ∅
     else vectorStore (fst (loadVectorStore legacy_state))) /\
  vectors (settings (fst (restart (fst (loadVectorStore legacy_state))))) = [] /\
  snd (restart (fst (loadVectorStore legacy_state))) = [].
Proof.
  apply legacy_migration_stable; [reflexivity|discriminate].
Defined.

(** ** The requirement cache *)

(** X13: after a failed check, [processFile] (which passes
    [showNotice = false]) does nothing at all, even once the service is back:
    the cached [false] is only cleared by a check with notices or by
    [markRequirementsStale]. *)
Theorem processFile_blocked_after_failure (env : Env) (file : TFile) (st : PluginState) :
  requirementsOk st = Some false -> processFile env file st = Some st.
Proof.
  intros Hr. unfold processFile, ensureRequirements. rewrite Hr. reflexivity.
Qed.

Lemma processFile_blocked_after_failure_witness :
  requirementsOk (set_requirementsOk (sample_state (sample_settings Paragraph 1 0) five_chunk_store)
                    (Some false)) = Some false /\
  processFile (sample_env (fun _ => [1%R])) note_file
    (set_requirementsOk (sample_state (sample_settings Paragraph 1 0) five_chunk_store) (Some false)) =
  Some (set_requirementsOk (sample_state (sample_settings Paragraph 1 0) five_chunk_store) (Some false)).
Proof.
  split; [reflexivity|]. apply processFile_blocked_after_failure. reflexivity.
Defined.

(** X14: editing the server URL or the model name clears the cache, so the
    next [ensureRequirements], with or without notices, runs the check and
    caches its outcome; the settings are saved. *)
Theorem serverSettingChange_rechecks (env : Env) (st : PluginState) (showNotice : bool) :
  requirementsOk (onServerSettingChange st) = None /\
  ensureRequirements env showNotice (onServerSettingChange st) =
    (serviceOk env, set_requirementsOk (onServerSettingChange st) (Some (serviceOk env))) /\
  dataFile (onServerSettingChange st) = Some (settings st).
Proof.
  destruct st as [m s f d r i c]. split; [reflexivity|]. split; reflexivity.
Qed.

(** ** Search guards *)

(** X15: the early exits of [performSearch]: a query shorter than three
    characters, then an empty store, give their message without asking the
    service and without touching the state; with a non-empty store, a
    failed check is retried (the search passes [showNotice = true]) and its
    outcome cached; once the check (cached or not) passes, an empty query
    embedding gives its message. *)
Theorem performSearch_guards (env : Env) (st : PluginState) (query : list ascii) :
  ((length query < 3)%nat ->
     performSearch env st query = (SearchMessage "Type at least 3 characters to search.", st)) /\
  ((3 <= length query)%nat -> vectorStore st = ∅ ->
     performSearch env st query =
       (SearchMessage "Vector index is empty. Please rebuild the index first.", st)) /\
  ((3 <= length query)%nat -> vectorStore st <> ∅ -> requirementsOk st <> Some true ->
     serviceOk env = false ->
     performSearch env st query =
       (SearchMessage "Ollama is unavailable. Check the plugin settings and try again.",
        set_requirementsOk st (Some false))) /\
  ((3 <= length query)%nat -> vectorStore st <> ∅ -> fst (ensureRequirements env true st) = true ->
     getEmbedding env query = [] ->
     performSearch env st query =
       (SearchMessage "Failed to generate an embedding for the query.",
        snd (ensureRequirements env true st))).
Proof.
  assert (Hsz : forall m : VectorStore, m <> ∅ -> Nat.eqb (size m) 0 = false).
  { intros m Hm. apply Nat.eqb_neq. intros E. apply Hm. apply map_size_empty_inv, E. }
  unfold performSearch. split; [|split; [|split]].
  - intros H. apply Nat.ltb_lt in H. rewrite H. reflexivity.
  - intros H He. apply Nat.ltb_ge in H. rewrite H, He, map_size_empty. reflexivity.
  - intros H He Hr Hs. apply Nat.ltb_ge in H. rewrite H, Hsz by exact He.
    unfold ensureRequirements. rewrite Hs.
    destruct (requirementsOk st) as [[|]|]; [contradiction|reflexivity|reflexivity].
  - intros H He Hs Hq. apply Nat.ltb_ge in H. rewrite H, Hsz by exact He.
    destruct (ensureRequirements env true st) as [ok st1]. simpl in Hs |- *. subst ok.
    rewrite Hq. reflexivity.
Qed.

(** ** Rebuilding the index *)

Lemma build_chunks_origin (env : Env) (cancel : nat -> bool) (file : TFile)
    (content : list ascii) (n : nat) (chunks : list TextChunk) : forall i k m b k' m',
  build_chunks env cancel file content n i chunks k m = (b, k', m') ->
  forall key v, m' !! key = Some v ->
    m !! key = Some v \/ path v = normalizePath env (file_path file).
Proof.
  induction chunks as [|c rest IH]; intros i k m b k' m' H key v Hv; simpl in H.
  - injection H as _ _ <-. left. exact Hv.
  - destruct (cancel k); [injection H as _ _ <-; left; exact Hv|].
    destruct (chunk_record env file content n i c) as [vd|] eqn:Ec.
    + destruct (IH _ _ _ _ _ _ H key v Hv) as [Hm|Hp]; [|right; exact Hp].
      unfold store_record in Hm.
      destruct (decide (vkey (path vd) (chunkIndex vd) = key)) as [<-|Hne].
      * rewrite lookup_insert_eq in Hm. injection Hm as <-. right.
        apply (chunk_record_Some _ _ _ _ _ _ _ Ec).
      * rewrite lookup_insert_ne in Hm by exact Hne. left. exact Hm.
    + exact (IH _ _ _ _ _ _ H key v Hv).
Qed.

Lemma build_files_origin (env : Env) (cancel : nat -> bool) (s : Settings)
    (files : list TFile) : forall k m b k' m',
  build_files env cancel s files k m = Some (b, k', m') ->
  forall key v, m' !! key = Some v ->
    m !! key = Some v \/ exists f, In f files /\ path v = normalizePath env (file_path f).
Proof.
  induction files as [|f fs IH]; intros k m b k' m' H key v Hv; simpl in H.
  - injection H as _ _ <-. left. exact Hv.
  - destruct (cancel k); [injection H as _ _ <-; left; exact Hv|].
    destruct (splitIntoChunks s (file_content f)) as [chunks|]; [|discriminate].
    destruct (build_chunks env cancel f (file_content f) (length chunks) 0 chunks (S k) m)
      as [[b1 k1] m1] eqn:Eb.
    assert (Hstep : forall w, m1 !! key = Some w ->
              m !! key = Some w \/ exists g, In g (f :: fs) /\ path w = normalizePath env (file_path g)).
    { intros w Hw. destruct (build_chunks_origin _ _ _ _ _ _ _ _ _ _ _ _ Eb key w Hw) as [Hm|Hp];
        [left; exact Hm|right; exists f; split; [left; reflexivity|exact Hp]]. }
    destruct b1.
    + injection H as _ _ <-. apply Hstep, Hv.
    + destruct (IH _ _ _ _ _ H key v Hv) as [Hm|[g [Hg Hp]]].
      * apply Hstep, Hm.
      * right. exists g. split; [right; exact Hg|exact Hp].
Qed.

(** X16: the early exits of [buildVectorIndex]: when the service is down
    and no success is cached, nothing is indexed and the failure is cached;
    when a run is already in progress, the call returns at once and the
    store is left as it is. *)
Theorem buildVectorIndex_guards (env : Env) (cancel : nat -> bool) (files : list TFile)
    (st : PluginState) :
  (serviceOk env = false -> requirementsOk st <> Some true ->
     buildVectorIndex env cancel files st =
       Some (BuildNotReady, set_requirementsOk st (Some false))) /\
  (fst (ensureRequirements env true st) = true -> isIndexing st = true ->
     buildVectorIndex env cancel files st =
       Some (BuildBusy, snd (ensureRequirements env true st)) /\
     vectorStore (snd (ensureRequirements env true st)) = vectorStore st).
Proof.
  unfold buildVectorIndex. split.
  - intros Hs Hr. unfold ensureRequirements. rewrite Hs.
    destruct (requirementsOk st) as [[|]|]; [contradiction|reflexivity|reflexivity].
  - intros Hready Hi.
    destruct (ensureRequirements env true st) as [r st1] eqn:Er. simpl in Hready. subst r.
    destruct (ensureRequirements_state _ _ _ _ _ Er) as [->| ->]; simpl.
    + rewrite Hi. split; reflexivity.
    + destruct st; simpl in *. rewrite Hi. split; reflexivity.
Qed.

(** X17: a rebuild that runs to the end leaves the plugin not indexing,
    with only records of the indexed notes (the store was cleared first, so
    no record of a deleted or renamed note survives), stamps the statistics
    with the store's size, and saves both files. *)
Theorem buildVectorIndex_done (env : Env) (cancel : nat -> bool) (files : list TFile)
    (st st' : PluginState) :
  buildVectorIndex env cancel files st = Some (BuildDone, st') ->
  isIndexing st' = false /\
  (forall k v, vectorStore st' !! k = Some v ->
     exists f, In f files /\ path v = normalizePath env (file_path f)) /\
  lastIndexTime (settings st') = Some (now env) /\
  lastIndexCount (settings st') = size (vectorStore st') /\
  persisted st'.
Proof.
  intros H. unfold buildVectorIndex in H.
  destruct (ensureRequirements env true st) as [r st1] eqn:Er.
  destruct r; simpl in H; [|discriminate].
  destruct (isIndexing st1); [discriminate|].
  destruct (build_files env cancel (settings st1) files 0 ∅) as [[[b k] m]|] eqn:Eb;
    [|discriminate].
  destruct b; [destruct (loadVectorStore_throws _); discriminate|]. injection H as <-. simpl.
  split; [reflexivity|]. split.
  - intros key v Hv.
    destruct (build_files_origin _ _ _ _ _ _ _ _ _ Eb key v Hv) as [He|Hf];
      [rewrite lookup_empty in He; discriminate|exact Hf].
  - split; [reflexivity|]. split; [reflexivity|]. split; reflexivity.
Qed.

Lemma buildVectorIndex_done_witness :
  isIndexing (rebuilt (sample_env (fun _ => [1%R])) [note_file]
                (sample_state (sample_settings Paragraph 1 0) five_chunk_store)) = false /\
  (forall k v, vectorStore (rebuilt (sample_env (fun _ => [1%R])) [note_file]
                  (sample_state (sample_settings Paragraph 1 0) five_chunk_store)) !! k = Some v ->
     exists f, In f [note_file] /\ path v = file_path f) /\
  lastIndexTime (settings (rebuilt (sample_env (fun _ => [1%R])) [note_file]
                  (sample_state (sample_settings Paragraph 1 0) five_chunk_store))) = Some 0%Z /\
  lastIndexCount (settings (rebuilt (sample_env (fun _ => [1%R])) [note_file]
                  (sample_state (sample_settings Paragraph 1 0) five_chunk_store))) =
    size (vectorStore (rebuilt (sample_env (fun _ => [1%R])) [note_file]
                  (sample_state (sample_settings Paragraph 1 0) five_chunk_store))) /\
  persisted (rebuilt (sample_env (fun _ => [1%R])) [note_file]
               (sample_state (sample_settings Paragraph 1 0) five_chunk_store)).
Proof.
  apply (buildVectorIndex_done (sample_env (fun _ => [1%R])) (fun _ => false) [note_file]
           (sample_state (sample_settings Paragraph 1 0) five_chunk_store)).
  vm_compute. reflexivity.
Defined.

(** ** What [processFile] writes *)

Lemma process_chunks_origin (env : Env) (file : TFile) (content : list ascii) (n : nat)
    (chunks : list TextChunk) : forall i m key v,
  process_chunks env file content n i chunks m !! key = Some v ->
  m !! key = Some v \/
  exists j c, nth_error chunks j = Some c /\ chunk_record env file content n (i + j) c = Some v.
Proof.
  induction chunks as [|c rest IH]; intros i m key v Hv; simpl in Hv; [left; exact Hv|].
  assert (Hshift : forall w, (exists j c', nth_error rest j = Some c' /\
                     chunk_record env file content n (S i + j) c' = Some w) ->
                   exists j c', nth_error (c :: rest) j = Some c' /\
                     chunk_record env file content n (i + j) c' = Some w).
  { intros w [j [c' [Hj Hc]]]. exists (S j), c'. split; [exact Hj|].
    rewrite Nat.add_succ_r. exact Hc. }
  destruct (chunk_record env file content n i c) as [vd|] eqn:Ec.
  - destruct (IH _ _ _ _ Hv) as [Hm|Hx]; [|right; apply Hshift, Hx].
    unfold store_record in Hm.
    destruct (decide (vkey (path vd) (chunkIndex vd) = key)) as [<-|Hne].
    + rewrite lookup_insert_eq in Hm. injection Hm as <-. right.
      exists 0%nat, c. rewrite Nat.add_0_r. split; [reflexivity|exact Ec].
    + rewrite lookup_insert_ne in Hm by exact Hne. left. exact Hm.
  - destruct (IH _ _ _ _ Hv) as [Hm|Hx]; [left; exact Hm|right; apply Hshift, Hx].
Qed.

Lemma zlen_split_nl_pos (s : list ascii) : 1 <= zlen (split_nl s).
Proof.
  destruct (split_nl_cons s) as [l [ls Hs]]. rewrite Hs. unfold zlen. simpl length. lia.
Qed.

Lemma chunk_record_lines (env : Env) (file : TFile) (content : list ascii) (n i : nat)
    (c : TextChunk) (vd : VectorData) :
  chunk_record env file content n i c = Some vd -> 0 <= startLine vd < endLine vd.
Proof.
  unfold chunk_record. destruct (Nat.eqb (length (getEmbedding env (text c))) 0); [discriminate|].
  intros H. injection H as <-. simpl.
  pose proof (zlen_split_nl_pos (js_slice content 0 (startOffset c))).
  pose proof (zlen_split_nl_pos (text c)). lia.
Qed.

(** X18: when the service is ready, [processFile] saves both files (the
    [persisted] condition under which a new instance restores the store)
    and stamps the statistics with the store's new size. *)
Theorem processFile_saves (env : Env) (file : TFile) (st st' : PluginState) :
  fst (ensureRequirements env false st) = true ->
  processFile env file st = Some st' ->
  persisted st' /\
  lastIndexTime (settings st') = Some (now env) /\
  lastIndexCount (settings st') = size (vectorStore st').
Proof.
  intros Hready H. unfold processFile in H.
  destruct (ensureRequirements env false st) as [r st1] eqn:Er. simpl in Hready. subst r.
  simpl in H. destruct (splitIntoChunks (settings st1) (file_content file)); [|discriminate].
  injection H as <-. simpl. split; [split; reflexivity|split; reflexivity].
Qed.

Lemma processFile_saves_witness :
  persisted (reindexed (sample_env (fun _ => [1%R]))
               (sample_state (sample_settings Paragraph 1 0) five_chunk_store)) /\
  lastIndexTime (settings (reindexed (sample_env (fun _ => [1%R]))
               (sample_state (sample_settings Paragraph 1 0) five_chunk_store))) = Some 0%Z /\
  lastIndexCount (settings (reindexed (sample_env (fun _ => [1%R]))
               (sample_state (sample_settings Paragraph 1 0) five_chunk_store))) =
    size (vectorStore (reindexed (sample_env (fun _ => [1%R]))
               (sample_state (sample_settings Paragraph 1 0) five_chunk_store))).
Proof.
  apply (processFile_saves (sample_env (fun _ => [1%R])) note_file
           (sample_state (sample_settings Paragraph 1 0) five_chunk_store)).
  - reflexivity.
  - vm_compute. reflexivity.
Defined.

(** X19: after [processFile], every record of the note is the record built
    for one of its chunks: its [chunkIndex] is that chunk's position, and
    its line range is non-empty and starts at a line [>= 0]. *)
Theorem processFile_records (env : Env) (file : TFile) (st st' : PluginState)
    (chunks : list TextChunk) :
  fst (ensureRequirements env false st) = true ->
  splitIntoChunks (settings st) (file_content file) = Some chunks ->
  processFile env file st = Some st' ->
  forall k v, vectorStore st' !! k = Some v -> path v = normalizePath env (file_path file) ->
    exists i c, nth_error chunks i = Some c /\
      chunk_record env file (file_content file) (length chunks) i c = Some v /\
      chunkIndex v = Z.of_nat i /\ 0 <= startLine v < endLine v.
Proof.
  intros Hready Hsplit H k v Hv Hp.
  destruct (processFile_ready env file st st' chunks Hready Hsplit H) as [Hm _].
  assert (Hr : records_for env (file_path file) (vectorStore st') !! k = Some v)
    by (apply map_lookup_filter_Some; split; [exact Hv|exact Hp]).
  rewrite Hm, process_chunks_records_for, records_for_removed in Hr.
  destruct (process_chunks_origin _ _ _ _ _ _ _ _ _ Hr) as [He|[j [c [Hj Hc]]]];
    [rewrite lookup_empty in He; discriminate|].
  exists j, c. split; [exact Hj|]. split; [exact Hc|].
  split; [apply (chunk_record_Some _ _ _ _ _ _ _ Hc)|apply (chunk_record_lines _ _ _ _ _ _ _ Hc)].
Qed.

Lemma processFile_records_witness :
  vectorStore (reindexed (sample_env (fun _ => [1%R]))
                 (sample_state (sample_settings Paragraph 1 0) five_chunk_store))
    !! vkey "note.md" 0 = Some first_record /\
  path first_record = "note.md" /\
  exists i c, nth_error [chunk_of three_paragraphs 0 6; chunk_of three_paragraphs 7 14;
                         chunk_of three_paragraphs 15 20] i = Some c /\
    chunk_record (sample_env (fun _ => [1%R])) note_file three_paragraphs 3 i c = Some first_record /\
    chunkIndex first_record = Z.of_nat i /\ 0 <= startLine first_record < endLine first_record.
Proof.
  assert (Hk : vectorStore (reindexed (sample_env (fun _ => [1%R]))
                 (sample_state (sample_settings Paragraph 1 0) five_chunk_store))
                 !! vkey "note.md" 0 = Some first_record) by (vm_compute; reflexivity).
  assert (Hp : path first_record = "note.md") by (vm_compute; reflexivity).
  split; [exact Hk|]. split; [exact Hp|].
  apply (processFile_records (sample_env (fun _ => [1%R])) note_file
           (sample_state (sample_settings Paragraph 1 0) five_chunk_store)
           (reindexed (sample_env (fun _ => [1%R]))
              (sample_state (sample_settings Paragraph 1 0) five_chunk_store))
           [chunk_of three_paragraphs 0 6; chunk_of three_paragraphs 7 14;
            chunk_of three_paragraphs 15 20]
           ltac:(reflexivity) ltac:(vm_compute; reflexivity) ltac:(vm_compute; reflexivity)
           (vkey "note.md" 0) first_record Hk Hp).
Defined.

(** ** Empty notes *)

(** X20: an empty note gives one chunk with empty text when [chunkSize] is
    [0], and no chunk at all otherwise, in both strategies. *)
Theorem splitIntoChunks_empty (st : Settings) :
  splitIntoChunks st [] =
    if chunkSize st =? 0 then Some [mkTextChunk [] 0 0] else Some [].
Proof.
  unfold splitIntoChunks. destruct (chunkSize st =? 0); [reflexivity|].
  destruct (chunkingStrategy st); reflexivity.
Qed.

(** X21: processing a note that became empty, with [chunkSize <> 0], drops
    all its records and adds none. *)
Theorem processFile_empty_note (env : Env) (file : TFile) (st st' : PluginState) :
  file_content file = [] -> chunkSize (settings st) <> 0 ->
  fst (ensureRequirements env false st) = true ->
  processFile env file st = Some st' ->
  vectorStore st' = removeFileVectors env (file_path file) (vectorStore st) /\
  records_for env (file_path file) (vectorStore st') = ∅.
Proof.
  intros Hc Hs Hready H.
  assert (Hsplit : splitIntoChunks (settings st) (file_content file) = Some []).
  { rewrite Hc. unfold splitIntoChunks. apply Z.eqb_neq in Hs. rewrite Hs.
    destruct (chunkingStrategy (settings st)); reflexivity. }
  destruct (processFile_ready env file st st' [] Hready Hsplit H) as [Hm _].
  simpl in Hm. split; [exact Hm|rewrite Hm; apply records_for_removed].
Qed.

Lemma processFile_empty_note_witness :
  vectorStore (processed (sample_env (fun _ => [1%R])) emptied_note
                 (sample_state (sample_settings Paragraph 1 0) five_chunk_store)) =
    removeFileVectors (sample_env (fun _ => [1%R])) "note.md" five_chunk_store /\
  records_for (sample_env (fun _ => [1%R])) "note.md"
    (vectorStore (processed (sample_env (fun _ => [1%R])) emptied_note
                    (sample_state (sample_settings Paragraph 1 0) five_chunk_store))) = ∅.
Proof.
  apply (processFile_empty_note (sample_env (fun _ => [1%R])) emptied_note
           (sample_state (sample_settings Paragraph 1 0) five_chunk_store)).
  - reflexivity.
  - discriminate.
  - reflexivity.
  - vm_compute. reflexivity.
Defined.

Lemma restart_restores_witness :
  vectorStore (fst (restart (sample_state (sample_settings Paragraph 1 0) five_chunk_store))) =
    five_chunk_store /\
  settings (fst (restart (sample_state (sample_settings Paragraph 1 0) five_chunk_store))) =
    sample_settings Paragraph 1 0 /\
  snd (restart (sample_state (sample_settings Paragraph 1 0) five_chunk_store)) = [].
Proof.
  apply (restart_restores (sample_state (sample_settings Paragraph 1 0) five_chunk_store)).
  - split; reflexivity.
  - unfold five_chunk_store.
    destruct (build_map _) as [m|] eqn:E; [|apply keys_consistent_empty].
    exact (keys_consistent_build_map_from _ 0 ∅ m keys_consistent_empty E).
Defined.
